(** * Word Format Studio: the formatting route ([src/app/api/format/route.ts])

    A shallow embedding of the route's helpers ([parseBoolean], [toTitleCase],
    [convertSmartQuotes], [normalizeSpacing], [applyTitleCase],
    [applySmartQuotes], [buildStyleSheet], [buildHtmlDocument]) and of its
    [POST] handler, with the properties the specification states about them. *)

From Stdlib Require Import List NArith ZArith Bool Ascii String DecimalString Lia.
Import ListNotations.

Set Implicit Arguments.
Set Warnings "-register-all".
Local Open Scope N_scope.

(** ** JavaScript strings

    A JavaScript string is a sequence of UTF-16 code units.  Literals of the
    source that are plain ASCII are written with [lit]; the four curly quotes
    are single code units. *)

Module JS.

Definition code_unit := N.
Definition jsstring := list code_unit.

Definition lit (s : string) : jsstring :=
  map N_of_ascii (list_ascii_of_string s).

Definition empty : jsstring := [].

Fixpoint eqb (a b : jsstring) : bool :=
  match a, b with
  | [], [] => true
  | x :: a', y :: b' => N.eqb x y && eqb a' b'
  | _, _ => false
  end.

(** The class [\s] of a regular expression, which is also the set that
    [String.prototype.trim] strips: WhiteSpace and LineTerminator. *)
Definition isSpace (c : code_unit) : bool :=
  (N.leb 9 c && N.leb c 13) || N.eqb c 32 || N.eqb c 160 || N.eqb c 5760
  || (N.leb 8192 c && N.leb c 8202) || N.eqb c 8232 || N.eqb c 8233
  || N.eqb c 8239 || N.eqb c 8287 || N.eqb c 12288 || N.eqb c 65279.

(** Case mapping, modelled on the ASCII letters; any other code unit is left
    as it is. *)
Definition lowerUnit (c : code_unit) : code_unit :=
  if N.leb 65 c && N.leb c 90 then c + 32 else c.

Definition upperUnit (c : code_unit) : code_unit :=
  if N.leb 97 c && N.leb c 122 then c - 32 else c.

Definition toLowerCase (s : jsstring) : jsstring := map lowerUnit s.
Definition toUpperCase (s : jsstring) : jsstring := map upperUnit s.

(** [s.charAt(0)] and [s.slice(1)]. *)
Definition charAt0 (s : jsstring) : jsstring := firstn 1%nat s.
Definition slice1 (s : jsstring) : jsstring := skipn 1%nat s.

(** [s.includes(c)] for a one-unit needle. *)
Definition includes (c : code_unit) (s : jsstring) : bool := existsb (N.eqb c) s.

(** [parts.join(sep)]. *)
Fixpoint join (sep : jsstring) (parts : list jsstring) : jsstring :=
  match parts with
  | [] => []
  | [p] => p
  | p :: rest => p ++ sep ++ join sep rest
  end.

(** [s.split(/\s+/)]: the pieces between the maximal runs of white space.
    [inRun] says that the unit before the cursor belonged to a separator;
    [acc] holds the current piece, reversed. *)
Fixpoint splitSpaces_from (inRun : bool) (acc : jsstring) (s : jsstring)
  : list jsstring :=
  match s with
  | [] => [rev acc]
  | c :: r =>
      if isSpace c then
        if inRun then splitSpaces_from true acc r
        else rev acc :: splitSpaces_from true [] r
      else splitSpaces_from false (c :: acc) r
  end.

Definition splitSpaces (s : jsstring) : list jsstring :=
  splitSpaces_from false [] s.

(** [s.split(c)] for a one-unit separator. *)
Fixpoint splitOn_from (sep : code_unit) (acc : jsstring) (s : jsstring)
  : list jsstring :=
  match s with
  | [] => [rev acc]
  | c :: r =>
      if N.eqb c sep then rev acc :: splitOn_from sep [] r
      else splitOn_from sep (c :: acc) r
  end.

Definition splitOn (sep : code_unit) (s : jsstring) : list jsstring :=
  splitOn_from sep [] s.

(** [s.trim()]. *)
Fixpoint trimStart (s : jsstring) : jsstring :=
  match s with
  | c :: r => if isSpace c then trimStart r else s
  | [] => []
  end.

Definition trimEnd (s : jsstring) : jsstring := rev (trimStart (rev s)).
Definition trim (s : jsstring) : jsstring := trimEnd (trimStart s).

(** [s.replace(/c/g, d)] for single units. *)
Definition replaceUnit (c d : code_unit) (s : jsstring) : jsstring :=
  map (fun x => if N.eqb x c then d else x) s.

(** [xs.map((x, index) => f(x, index))]. *)
Fixpoint mapi_from {A B} (f : A -> Z -> B) (index : Z) (xs : list A) : list B :=
  match xs with
  | [] => []
  | x :: r => f x index :: mapi_from f (index + 1)%Z r
  end.

Definition mapi {A B} (f : A -> Z -> B) (xs : list A) : list B :=
  mapi_from f 0%Z xs.

(** Is [needle] a prefix of [s]; does it occur in [s]. *)
Fixpoint startsWith (needle s : jsstring) : bool :=
  match needle, s with
  | [], _ => true
  | x :: n', y :: s' => N.eqb x y && startsWith n' s'
  | _ :: _, [] => false
  end.

Fixpoint occurs (needle s : jsstring) : bool :=
  startsWith needle s ||
  match s with
  | [] => false
  | _ :: r => occurs needle r
  end.

Definition quote : code_unit := 34.       (* the straight double quote *)
Definition apostrophe : code_unit := 39.  (* the straight single quote *)
Definition hyphen : code_unit := 45.
Definition space : code_unit := 32.

End JS.

Import JS.

(** ** Form data and option flags *)

(** An uploaded file: its name and its bytes. *)
Record File := { fileName : jsstring; fileBytes : list N }.

(** [FormDataEntryValue = string | File]. *)
Inductive FormDataEntryValue :=
| EntryString (s : jsstring)
| EntryFile (f : File).

(** The fields of a multipart form, in submission order; a name may occur
    more than once and [get] answers with the first entry, or [null]. *)
Definition FormData := list (jsstring * FormDataEntryValue).

Fixpoint get (formData : FormData) (name : jsstring) : option FormDataEntryValue :=
  match formData with
  | [] => None
  | (k, v) :: rest => if JS.eqb k name then Some v else get rest name
  end.

Definition parseBoolean (value : option FormDataEntryValue) (fallback : bool) : bool :=
  match value with
  | Some (EntryString s) => JS.eqb s (lit "true") || JS.eqb s (lit "1")
  | _ => fallback
  end.

Record FormatterOptions := {
  justify : bool;
  tidySpacing : bool;
  titleCaseHeadings : bool;
  autoNumberHeadings : bool;
  convertQuotes : bool
}.

(** The option record that [POST] builds from the form (lines 306-312). *)
Definition readOptions (formData : FormData) : FormatterOptions :=
  {| justify := parseBoolean (get formData (lit "justify")) true;
     tidySpacing := parseBoolean (get formData (lit "tidySpacing")) true;
     titleCaseHeadings := parseBoolean (get formData (lit "titleCaseHeadings")) true;
     autoNumberHeadings := parseBoolean (get formData (lit "autoNumberHeadings")) false;
     convertQuotes := parseBoolean (get formData (lit "convertQuotes")) true |}.

(** ** Title case *)

Definition smallWords : list jsstring :=
  map lit ["and"; "or"; "the"; "of"; "for"; "in"; "on"; "to"; "a"; "an"; "with"]%string.

Definition has (set : list jsstring) (word : jsstring) : bool :=
  existsb (JS.eqb word) set.

(** [word.charAt(0).toUpperCase() + word.slice(1)]. *)
Definition capitalize (word : jsstring) : jsstring :=
  toUpperCase (charAt0 word) ++ slice1 word.

Definition titleWord (words : list jsstring) (word : jsstring) (index : Z) : jsstring :=
  if Nat.eqb (List.length word) 0%nat then JS.empty
  else if includes hyphen word then
    join [hyphen] (map capitalize (splitOn hyphen word))
  else if negb (Z.eqb index 0%Z)
          && negb (Z.eqb index (Z.of_nat (List.length words) - 1)%Z)
          && has smallWords word
  then word
  else capitalize word.

Definition toTitleCase (input : jsstring) : jsstring :=
  let lower := toLowerCase input in
  let words := splitSpaces lower in
  join [space] (mapi (titleWord words) words).

(** ** Smart quotes *)

Definition ldquo : code_unit := 8220.  (* U+201C *)
Definition rdquo : code_unit := 8221.  (* U+201D *)
Definition lsquo : code_unit := 8216.  (* U+2018 *)
Definition rsquo : code_unit := 8217.  (* U+2019 *)

(** The class [[\s([{<]] of the two opening patterns. *)
Definition isOpener (c : code_unit) : bool :=
  isSpace c || N.eqb c 40 || N.eqb c 91 || N.eqb c 123 || N.eqb c 60.

(** [s.replace(/(^|[\s([{<])q/g, "$1o")], scanned from a position after the
    start of the string: a match is an opener followed by [q]; the scan goes
    on after the match. *)
Fixpoint replaceAfterOpener (q o : code_unit) (s : jsstring) : jsstring :=
  match s with
  | [] => []
  | c :: r =>
      match r with
      | c' :: r' =>
          if isOpener c && N.eqb c' q
          then c :: o :: replaceAfterOpener q o r'
          else c :: replaceAfterOpener q o r
      | [] => [c]
      end
  end.

(** The same replacement from the start of the string, where [^] matches. *)
Definition replaceOpening (q o : code_unit) (s : jsstring) : jsstring :=
  match s with
  | c :: r => if N.eqb c q then o :: replaceAfterOpener q o r
              else replaceAfterOpener q o s
  | [] => []
  end.

Definition convertSmartQuotes (value : jsstring) : jsstring :=
  let result := value in
  let result := replaceOpening quote ldquo result in
  let result := replaceUnit quote rdquo result in
  let result := replaceOpening apostrophe lsquo result in
  let result := replaceUnit apostrophe rsquo result in
  result.

(** ** Spacing of paragraph markup

    The four steps that [normalizeSpacing] applies to a paragraph's inner
    markup: [.replace(/&nbsp;/g, " ")], [.replace(/\s{2,}/g, " ")],
    [.replace(/\s+([.,;:!?])/g, "$1")] and [.trim()]. *)

Definition nbsp : jsstring := lit "&nbsp;".

(** [s.replace(/pat/g, rep)] for a literal pattern: the matches are taken
    left to right and do not overlap; [skip] counts the units of the current
    match that are still to be passed over. *)
Fixpoint replaceLiteral_from (pat rep : jsstring) (skip : nat) (s : jsstring)
  : jsstring :=
  match s with
  | [] => []
  | c :: r =>
      match skip with
      | S k => replaceLiteral_from pat rep k r
      | O =>
          if startsWith pat s
          then rep ++ replaceLiteral_from pat rep (List.length pat - 1)%nat r
          else c :: replaceLiteral_from pat rep O r
      end
  end.

Definition replaceLiteral (pat rep s : jsstring) : jsstring :=
  replaceLiteral_from pat rep O s.

(** [s.replace(/\s{2,}/g, " ")]: every maximal run of two or more white-space
    units becomes one space; [inRun] says the cursor is inside such a run. *)
Fixpoint collapseRuns_from (inRun : bool) (s : jsstring) : jsstring :=
  match s with
  | [] => []
  | c :: r =>
      if isSpace c then
        if inRun then collapseRuns_from true r
        else
          match r with
          | c' :: _ =>
              if isSpace c' then space :: collapseRuns_from true r
              else c :: collapseRuns_from false r
          | [] => [c]
          end
      else c :: collapseRuns_from false r
  end.

Definition collapseRuns (s : jsstring) : jsstring := collapseRuns_from false s.

Definition isPunct (c : code_unit) : bool :=
  N.eqb c 46 || N.eqb c 44 || N.eqb c 59 || N.eqb c 58 || N.eqb c 33 || N.eqb c 63.

(** Does [s] start with white space (possibly none) and then a mark. *)
Fixpoint marksNext (s : jsstring) : bool :=
  match s with
  | [] => false
  | c :: r => if isSpace c then marksNext r else isPunct c
  end.

(** [s.replace(/\s+([.,;:!?])/g, "$1")]: a run of white space that ends at a
    punctuation mark is dropped, the mark stays. *)
Fixpoint stripBeforePunct (s : jsstring) : jsstring :=
  match s with
  | [] => []
  | c :: r =>
      if isSpace c && marksNext r then stripBeforePunct r
      else c :: stripBeforePunct r
  end.

Definition normalizeMarkup (html : jsstring) : jsstring :=
  trim (stripBeforePunct (collapseRuns (replaceLiteral nbsp [space] html))).

(** ** The markup tree

    The nodes of cheerio's document tree: text, comments and elements with
    their attributes and children.  A document, a selection's context and the
    children of an element are all lists of nodes in document order. *)

Inductive node :=
| Text (data : jsstring)
| Comment (data : jsstring)
| Element (name : jsstring) (attribs : list (jsstring * jsstring)) (children : list node).

Definition Document := list node.

(** [el.text()]: the data of the text nodes below, in document order. *)
Fixpoint textContent (n : node) : jsstring :=
  match n with
  | Text data => data
  | Comment _ => []
  | Element _ _ children => flat_map textContent children
  end.

Definition text (nodes : list node) : jsstring := flat_map textContent nodes.

Definition isP (name : jsstring) : bool := JS.eqb name (lit "p").

(** [el.prev("p")], read off the siblings before [el] (nearest first): the
    closest sibling that is an element, provided it is a paragraph. *)
Fixpoint prevP (before : list node) : option node :=
  match before with
  | [] => None
  | Element name attribs children :: _ =>
      if isP name then Some (Element name attribs children) else None
  | _ :: rest => prevP rest
  end.

(** The test [previous.length === 0 || previous.text().trim().length === 0]. *)
Definition previousBlank (before : list node) : bool :=
  match prevP before with
  | None => true
  | Some previous => Nat.eqb (List.length (trim (textContent previous))) 0%nat
  end.

(** The selector [p:empty]: a paragraph none of whose children is an element
    or a text node with data. *)
Definition isBlankChild (n : node) : bool :=
  match n with
  | Element _ _ _ => false
  | Text data => Nat.eqb (List.length data) 0%nat
  | Comment _ => true
  end.

Definition matchesEmptyP (n : node) : bool :=
  match n with
  | Element name _ children => isP name && forallb isBlankChild children
  | _ => false
  end.

(** [$("p:empty").remove()] on a list of siblings, [visit] doing the same
    below each node that stays. *)
Definition removeEmptyP (visit : node -> node) : list node -> list node :=
  fix go (nodes : list node) : list node :=
    match nodes with
    | [] => []
    | n :: rest => if matchesEmptyP n then go rest else visit n :: go rest
    end.

Fixpoint sweepNode (n : node) : node :=
  match n with
  | Element name attribs children =>
      Element name attribs (removeEmptyP sweepNode children)
  | _ => n
  end.

Definition sweep (doc : Document) : Document := removeEmptyP sweepNode doc.

Section Transforms.

(** Cheerio's serialiser and fragment parser, behind [el.html()] and
    [el.html(markup)]. *)
Variable render : list node -> jsstring.
Variable parse : jsstring -> list node.

(** The callback of [$("p").each] on one paragraph, [before] being the
    siblings already visited (nearest first): [None] when the element is
    removed, otherwise the element as the callback leaves it. *)
Definition tidyParagraph (before : list node) (name : jsstring)
    (attribs : list (jsstring * jsstring)) (children : list node) : option node :=
  let html := render children in
  let normalized := normalizeMarkup html in
  if Nat.eqb (List.length normalized) 0%nat then
    if previousBlank before then None
    else Some (Element name attribs (parse JS.empty))
  else Some (Element name attribs (parse normalized)).

(** [$("p").each(...)] along a list of siblings.  The paragraphs were
    selected before the loop; the children that the callback gives a
    paragraph are new nodes, so the loop does not go below a paragraph.
    [visit] runs the loop below any other element. *)
Definition eachP (visit : node -> node) : list node -> list node -> list node :=
  fix go (before rest : list node) {struct rest} : list node :=
    match rest with
    | [] => rev before
    | n :: rest' =>
        match n with
        | Element name attribs children =>
            if isP name then
              match tidyParagraph before name attribs children with
              | Some el => go (el :: before) rest'
              | None => go before rest'
              end
            else go (visit n :: before) rest'
        | _ => go (n :: before) rest'
        end
    end.

Fixpoint tidyNode (n : node) : node :=
  match n with
  | Element name attribs children =>
      Element name attribs (eachP tidyNode [] children)
  | _ => n
  end.

Definition tidyParagraphs (doc : Document) : Document := eachP tidyNode [] doc.

Definition normalizeSpacing (doc : Document) : Document :=
  sweep (tidyParagraphs doc).

End Transforms.

(** [$("h1, h2, h3").each(...)]: the text of a heading is replaced by its
    title-cased form, as a single text node. *)
Definition isHeading (name : jsstring) : bool :=
  JS.eqb name (lit "h1") || JS.eqb name (lit "h2") || JS.eqb name (lit "h3").

Fixpoint titleNode (n : node) : node :=
  match n with
  | Element name attribs children =>
      if isHeading name
      then Element name attribs [Text (toTitleCase (text children))]
      else Element name attribs (map titleNode children)
  | _ => n
  end.

Definition applyTitleCase (doc : Document) : Document := map titleNode doc.

(** [$("body").find("*").contents()]: the child nodes of every element below a
    [body]; their text nodes are rewritten. *)
Definition quoteChild (visit : node -> node) (n : node) : node :=
  match n with
  | Text data => Text (convertSmartQuotes data)
  | _ => visit n
  end.

Fixpoint quoteBelow (n : node) : node :=
  match n with
  | Element name attribs children =>
      Element name attribs (map (quoteChild quoteBelow) children)
  | _ => n
  end.

Fixpoint quoteNode (n : node) : node :=
  match n with
  | Element name attribs children =>
      if JS.eqb name (lit "body")
      then Element name attribs (map quoteBelow children)
      else Element name attribs (map quoteNode children)
  | _ => n
  end.

Definition applySmartQuotes (doc : Document) : Document := map quoteNode doc.

(** ** A reference serialiser and fragment parser

    The route leaves serialising and parsing to cheerio, so the transforms
    above take them as [render] and [parse].  This module gives a reference
    model of the two, to run the transforms on concrete trees: the serialiser
    writes text, comments and elements the way cheerio's does, and the parser
    reads well-nested markup of that form back. *)

Module Reference.

Definition voidNames : list jsstring :=
  map lit ["area"; "base"; "basefont"; "bgsound"; "br"; "col"; "embed";
           "frame"; "hr"; "img"; "input"; "keygen"; "link"; "meta"; "param";
           "source"; "track"; "wbr"]%string.

(** Elements whose text is written and read without escapes. *)
Definition rawNames : list jsstring :=
  map lit ["style"; "script"; "xmp"; "iframe"; "noembed"; "noframes";
           "plaintext"; "noscript"]%string.

Definition escapeTextUnit (c : code_unit) : jsstring :=
  if N.eqb c 38 then lit "&amp;"
  else if N.eqb c 160 then lit "&nbsp;"
  else if N.eqb c 60 then lit "&lt;"
  else if N.eqb c 62 then lit "&gt;"
  else [c].

Definition escapeAttrUnit (c : code_unit) : jsstring :=
  if N.eqb c 38 then lit "&amp;"
  else if N.eqb c 160 then lit "&nbsp;"
  else if N.eqb c quote then lit "&quot;"
  else [c].

Definition escapeText (s : jsstring) : jsstring := flat_map escapeTextUnit s.
Definition escapeAttr (s : jsstring) : jsstring := flat_map escapeAttrUnit s.

Definition renderAttr (a : jsstring * jsstring) : jsstring :=
  [space] ++ fst a ++ lit "=" ++ [quote] ++ escapeAttr (snd a) ++ [quote].

Fixpoint renderNode (raw : bool) (n : node) : jsstring :=
  match n with
  | Text data => if raw then data else escapeText data
  | Comment data => lit "<!--" ++ data ++ lit "-->"
  | Element name attribs children =>
      lit "<" ++ name ++ flat_map renderAttr attribs ++ lit ">" ++
      (if has voidNames name then []
       else flat_map (renderNode (has rawNames name)) children
            ++ lit "</" ++ name ++ lit ">")
  end.

Definition render (nodes : list node) : jsstring :=
  flat_map (renderNode false) nodes.

(** The units of [s] before the first one that satisfies [stop], and the rest. *)
Fixpoint span (stop : code_unit -> bool) (s : jsstring) : jsstring * jsstring :=
  match s with
  | [] => ([], [])
  | c :: r =>
      if stop c then ([], s)
      else let (a, b) := span stop r in (c :: a, b)
  end.

(** [s] cut at the first occurrence of [pat]. *)
Fixpoint cutAt (pat s : jsstring) : option (jsstring * jsstring) :=
  if startsWith pat s then Some ([], skipn (List.length pat) s)
  else
    match s with
    | [] => None
    | c :: r =>
        match cutAt pat r with
        | Some (a, b) => Some (c :: a, b)
        | None => None
        end
    end.

Definition entities : list (jsstring * code_unit) :=
  [(lit "&amp;", 38); (lit "&lt;", 60); (lit "&gt;", 62);
   (lit "&quot;", quote); (lit "&nbsp;", 160)].

Fixpoint decode_from (skip : nat) (s : jsstring) : jsstring :=
  match s with
  | [] => []
  | c :: r =>
      match skip with
      | S k => decode_from k r
      | O =>
          match find (fun e => startsWith (fst e) s) entities with
          | Some (pat, u) => u :: decode_from (List.length pat - 1)%nat r
          | None => c :: decode_from O r
          end
      end
  end.

Definition decode (s : jsstring) : jsstring := decode_from O s.

Definition isLetter (c : code_unit) : bool :=
  (N.leb 65 c && N.leb c 90) || (N.leb 97 c && N.leb c 122).

(** The attributes of a start tag, and what follows its [>]. *)
Fixpoint parseAttribs (fuel : nat) (s : jsstring)
  : list (jsstring * jsstring) * jsstring :=
  match fuel with
  | O => ([], [])
  | S fuel' =>
      match s with
      | [] => ([], [])
      | c :: r =>
          if N.eqb c 62 then ([], r)
          else if isSpace c || N.eqb c 47 then parseAttribs fuel' r
          else
            let (name, after) :=
              span (fun x => isSpace x || N.eqb x 61 || N.eqb x 62 || N.eqb x 47) s in
            match after with
            | 61 :: 34 :: v =>
                match cutAt [quote] v with
                | Some (value, after') =>
                    let (more, rest) := parseAttribs fuel' after' in
                    ((name, decode value) :: more, rest)
                | None => ([(name, decode v)], [])
                end
            | 61 :: v =>
                let (value, after') := span (fun x => isSpace x || N.eqb x 62) v in
                let (more, rest) := parseAttribs fuel' after' in
                ((name, decode value) :: more, rest)
            | _ =>
                let (more, rest) := parseAttribs fuel' after in
                ((name, []) :: more, rest)
            end
      end
  end.

Definition startsTag (s : jsstring) : bool :=
  match s with
  | 60 :: c :: _ => isLetter c
  | _ => false
  end.

(** The nodes up to the end tag that closes the element being read (or to the
    end of the input), and what follows that end tag. *)
Fixpoint parseNodes (fuel : nat) (s : jsstring) : list node * jsstring :=
  match fuel with
  | O => ([], [])
  | S fuel' =>
      match s with
      | [] => ([], [])
      | c :: r =>
          if startsWith (lit "</") s then
            let (_, after) := span (N.eqb 62) s in ([], skipn 1%nat after)
          else if startsWith (lit "<!--") s then
            match cutAt (lit "-->") (skipn 4%nat s) with
            | Some (data, after) =>
                let (siblings, rest) := parseNodes fuel' after in
                (Comment data :: siblings, rest)
            | None => ([Comment (skipn 4%nat s)], [])
            end
          else if startsTag s then
            let (name, tag) :=
              span (fun x => isSpace x || N.eqb x 62 || N.eqb x 47) r in
            let (attribs, after) := parseAttribs (S (List.length tag)) tag in
            if has voidNames name then
              let (siblings, rest) := parseNodes fuel' after in
              (Element name attribs [] :: siblings, rest)
            else if has rawNames name then
              match cutAt (lit "</" ++ name ++ lit ">") after with
              | Some (data, after') =>
                  let (siblings, rest) := parseNodes fuel' after' in
                  (Element name attribs
                     (match data with [] => [] | _ => [Text data] end)
                     :: siblings, rest)
              | None =>
                  ([Element name attribs
                      (match after with [] => [] | _ => [Text after] end)], [])
              end
            else
              let (children, after') := parseNodes fuel' after in
              let (siblings, rest) := parseNodes fuel' after' in
              (Element name attribs children :: siblings, rest)
          else
            let (data, after) := span (N.eqb 60) r in
            let (siblings, rest) := parseNodes fuel' after in
            (Text (decode (c :: data)) :: siblings, rest)
      end
  end.

(** A fragment: an end tag with nothing to close is passed over. *)
Fixpoint parseFragment (fuel : nat) (s : jsstring) : list node :=
  match fuel with
  | O => []
  | S fuel' =>
      match s with
      | [] => []
      | _ =>
          let (nodes, rest) := parseNodes (S (List.length s)) s in
          nodes ++ parseFragment fuel' rest
      end
  end.

Definition parse (s : jsstring) : list node :=
  parseFragment (S (List.length s)) s.

End Reference.

(** ** Presets and the stylesheet *)

(** A value read from a preset object and put into a template literal: a
    string, a number (kept in hundredths, which is exact for the numbers of
    [PRESET_CONFIG]) or [undefined] for a field the object does not have. *)
Inductive value :=
| VString (s : jsstring)
| VNumber (hundredths : N)
| VUndefined.

Definition showN (n : N) : jsstring :=
  lit (NilEmpty.string_of_uint (N.to_uint n)).

(** [String(x)] for a number with at most two decimals. *)
Definition showNumber (hundredths : N) : jsstring :=
  let whole := hundredths / 100 in
  let part := hundredths mod 100 in
  if N.eqb part 0 then showN whole
  else if N.eqb (part mod 10) 0 then showN whole ++ lit "." ++ showN (part / 10)
  else showN whole ++ lit "." ++ (if N.ltb part 10 then lit "0" else []) ++ showN part.

Definition interp (v : value) : jsstring :=
  match v with
  | VString s => s
  | VNumber n => showNumber n
  | VUndefined => lit "undefined"
  end.

Record PresetConfig := {
  fontFamily : value;
  headingFont : value;
  bodySize : value;
  headingWeight : value;
  lineHeight : value;
  paragraphSpacing : value;
  accent : value;
  pageMargin : value;
  background : value
}.

Definition classic : PresetConfig :=
  {| fontFamily := VString ([quote] ++ lit "Times New Roman" ++ [quote] ++ lit ", Times, serif");
     headingFont := VString ([quote] ++ lit "Times New Roman" ++ [quote] ++ lit ", Times, serif");
     bodySize := VNumber 1200;
     headingWeight := VNumber 60000;
     lineHeight := VNumber 150;
     paragraphSpacing := VNumber 1400;
     accent := VString (lit "#1d4ed8");
     pageMargin := VString (lit "1in");
     background := VString (lit "#f8fafc") |}.

Definition modern : PresetConfig :=
  {| fontFamily := VString ([quote] ++ lit "Calibri" ++ [quote] ++ lit ", " ++ [quote]
                            ++ lit "Segoe UI" ++ [quote] ++ lit ", sans-serif");
     headingFont := VString ([quote] ++ lit "Source Sans Pro" ++ [quote] ++ lit ", " ++ [quote]
                             ++ lit "Calibri" ++ [quote] ++ lit ", " ++ [quote]
                             ++ lit "Segoe UI" ++ [quote] ++ lit ", sans-serif");
     bodySize := VNumber 1100;
     headingWeight := VNumber 60000;
     lineHeight := VNumber 165;
     paragraphSpacing := VNumber 1600;
     accent := VString (lit "#0f766e");
     pageMargin := VString (lit "0.9in");
     background := VString (lit "#f0fdfa") |}.

Definition executive : PresetConfig :=
  {| fontFamily := VString ([quote] ++ lit "Helvetica Neue" ++ [quote] ++ lit ", Arial, sans-serif");
     headingFont := VString (lit "Georgia, 'Times New Roman', serif");
     bodySize := VNumber 1100;
     headingWeight := VNumber 70000;
     lineHeight := VNumber 158;
     paragraphSpacing := VNumber 1500;
     accent := VString (lit "#a16207");
     pageMargin := VString (lit "1in 1.15in 1in 1.15in");
     background := VString (lit "#fffbeb") |}.

(** What [PRESET_CONFIG] inherits from [Object.prototype]: each of these names
    reads as a function or an object, none of which has a preset's fields. *)
Definition objectPrototypeKeys : list jsstring :=
  map lit ["constructor"; "__defineGetter__"; "__defineSetter__";
           "hasOwnProperty"; "__lookupGetter__"; "__lookupSetter__";
           "isPrototypeOf"; "propertyIsEnumerable"; "toString"; "valueOf";
           "__proto__"; "toLocaleString"]%string.

Definition inherited : PresetConfig :=
  {| fontFamily := VUndefined; headingFont := VUndefined; bodySize := VUndefined;
     headingWeight := VUndefined; lineHeight := VUndefined;
     paragraphSpacing := VUndefined; accent := VUndefined;
     pageMargin := VUndefined; background := VUndefined |}.

(** [PRESET_CONFIG[key]]: [None] is [undefined]. *)
Definition PRESET_CONFIG (key : jsstring) : option PresetConfig :=
  if JS.eqb key (lit "classic") then Some classic
  else if JS.eqb key (lit "modern") then Some modern
  else if JS.eqb key (lit "executive") then Some executive
  else if has objectPrototypeKeys key then Some inherited
  else None.

Definition newline : code_unit := 10.

(** A template literal, line by line. *)
Definition lines (ls : list jsstring) : jsstring := join [newline] ls.

Definition numberingRules (preset : PresetConfig) : jsstring :=
  lines
    [JS.empty;
     lit "  .docx-content {";
     lit "    counter-reset: h1;";
     lit "  }";
     lit "  .docx-content h1 {";
     lit "    counter-reset: h2;";
     lit "  }";
     lit "  .docx-content h1::before {";
     lit "    counter-increment: h1;";
     lit "    content: counter(h1) " ++ [quote] ++ lit ". " ++ [quote] ++ lit ";";
     lit "  }";
     lit "  .docx-content h2 {";
     lit "    counter-reset: h3;";
     lit "  }";
     lit "  .docx-content h2::before {";
     lit "    counter-increment: h2;";
     lit "    content: counter(h1) " ++ [quote] ++ lit "." ++ [quote] ++ lit " counter(h2) " ++ [quote] ++ lit " " ++ [quote] ++ lit ";";
     lit "  }";
     lit "  .docx-content h3::before {";
     lit "    counter-increment: h3;";
     lit "    content: counter(h1) " ++ [quote] ++ lit "." ++ [quote] ++ lit " counter(h2) " ++ [quote] ++ lit "." ++ [quote] ++ lit " counter(h3) " ++ [quote] ++ lit " " ++ [quote] ++ lit ";";
     lit "  }";
     lit "  .docx-content h1::before,";
     lit "  .docx-content h2::before,";
     lit "  .docx-content h3::before {";
     lit "    font-weight: " ++ interp (headingWeight preset) ++ lit ";";
     lit "    color: " ++ interp (accent preset) ++ lit ";";
     lit "  }";
     JS.empty].

Definition buildStyleSheet (preset : PresetConfig) (options : FormatterOptions) : jsstring :=
  let numbering :=
    if autoNumberHeadings options then numberingRules preset else JS.empty in
  lines
    [JS.empty;
     lit "  @page {";
     lit "    margin: " ++ interp (pageMargin preset) ++ lit ";";
     lit "  }";
     JS.empty;
     lit "  body {";
     lit "    font-family: " ++ interp (fontFamily preset) ++ lit ";";
     lit "    font-size: " ++ interp (bodySize preset) ++ lit "pt;";
     lit "    line-height: " ++ interp (lineHeight preset) ++ lit ";";
     lit "    color: #1f2937;";
     lit "    background: #ffffff;";
     lit "    margin: 0;";
     lit "  }";
     JS.empty;
     lit "  .docx-shell {";
     lit "    min-height: 100vh;";
     lit "    background: " ++ interp (background preset) ++ lit ";";
     lit "    padding: 48px 0;";
     lit "  }";
     JS.empty;
     lit "  .docx-content {";
     lit "    background: #ffffff;";
     lit "    margin: 0 auto;";
     lit "    max-width: 7in;";
     lit "    padding: 1in 1.1in;";
     lit "    box-shadow: 0 20px 45px -28px rgba(15, 23, 42, 0.45);";
     lit "    border-radius: 12px;";
     lit "  }";
     JS.empty;
     lit "  .docx-content p {";
     lit "    margin: " ++ interp (paragraphSpacing preset) ++ lit "pt 0;";
     lit "    " ++ (if justify options then lit "text-align: justify;" else lit "text-align: left;");
     lit "  }";
     JS.empty;
     lit "  .docx-content h1,";
     lit "  .docx-content h2,";
     lit "  .docx-content h3,";
     lit "  .docx-content h4,";
     lit "  .docx-content h5,";
     lit "  .docx-content h6 {";
     lit "    font-family: " ++ interp (headingFont preset) ++ lit ";";
     lit "    font-weight: " ++ interp (headingWeight preset) ++ lit ";";
     lit "    letter-spacing: -0.02em;";
     lit "    color: " ++ interp (accent preset) ++ lit ";";
     lit "    margin-top: 1.6em;";
     lit "    margin-bottom: 0.5em;";
     lit "  }";
     JS.empty;
     lit "  .docx-content h1 { font-size: 28px; }";
     lit "  .docx-content h2 { font-size: 22px; }";
     lit "  .docx-content h3 { font-size: 18px; }";
     JS.empty;
     lit "  .docx-content ul,";
     lit "  .docx-content ol {";
     lit "    margin: " ++ interp (paragraphSpacing preset) ++ lit "pt 0 " ++ interp (paragraphSpacing preset) ++ lit "pt 24px;";
     lit "    padding: 0;";
     lit "  }";
     JS.empty;
     lit "  .docx-content ul li {";
     lit "    margin-bottom: 6px;";
     lit "  }";
     JS.empty;
     lit "  .docx-content table {";
     lit "    width: 100%;";
     lit "    border-collapse: collapse;";
     lit "    margin: 18px 0;";
     lit "  }";
     JS.empty;
     lit "  .docx-content table th,";
     lit "  .docx-content table td {";
     lit "    border: 1px solid #e2e8f0;";
     lit "    padding: 8px 12px;";
     lit "  }";
     JS.empty;
     lit "  .docx-content blockquote {";
     lit "    border-left: 4px solid " ++ interp (accent preset) ++ lit ";";
     lit "    padding-left: 18px;";
     lit "    margin: " ++ interp (paragraphSpacing preset) ++ lit "pt 0;";
     lit "    font-style: italic;";
     lit "    color: #475569;";
     lit "  }";
     JS.empty;
     lit "  " ++ numbering;
     JS.empty].

(** The two templates of [buildHtmlDocument]. *)
Definition wrapDocument (stylesheet sanitizedContent : jsstring) : jsstring :=
  lines
    [JS.empty;
     lit "    <!doctype html>";
     lit "    <html lang=" ++ [quote] ++ lit "en" ++ [quote] ++ lit ">";
     lit "      <head>";
     lit "        <meta charset=" ++ [quote] ++ lit "utf-8" ++ [quote] ++ lit " />";
     lit "        <title>Formatted Word Document</title>";
     lit "        <style>" ++ stylesheet ++ lit "</style>";
     lit "      </head>";
     lit "      <body>";
     lit "        <div class=" ++ [quote] ++ lit "docx-shell" ++ [quote] ++ lit ">";
     lit "          <div class=" ++ [quote] ++ lit "docx-content" ++ [quote] ++ lit ">";
     lit "            " ++ sanitizedContent;
     lit "          </div>";
     lit "        </div>";
     lit "      </body>";
     lit "    </html>";
     lit "  "].

Definition wrapPreview (stylesheet sanitizedContent : jsstring) : jsstring :=
  lines
    [JS.empty;
     lit "    <style>" ++ stylesheet ++ lit "</style>";
     lit "    <div class=" ++ [quote] ++ lit "docx-content" ++ [quote] ++ lit ">";
     lit "      " ++ sanitizedContent;
     lit "    </div>";
     lit "  "].

(** ** Library calls, exceptions and the log of a request

    The stages that the route leaves to libraries may throw.  A computation
    threads the list of library calls made so far and ends in a result or in
    an exception. *)

Inductive outcome (A : Type) :=
| Returned (a : A)
| Thrown (error : jsstring).

Arguments Returned {A} a.
Arguments Thrown {A} error.

Inductive event :=
| FileRead (file : File)                (* file.arrayBuffer() *)
| Decoded (buffer : list N)             (* mammoth.convertToHtml *)
| Loaded (html : jsstring)              (* cheerio's load *)
| Sanitized (markup : jsstring)         (* DOMPurify.sanitize *)
| Encoded (documentHtml : jsstring)     (* htmlDocx.asBlob *)
| BlobRead (blob : list N)              (* docxBlob.arrayBuffer() *)
| ErrorLogged (error : jsstring).       (* console.error *)

Definition M (A : Type) : Type := list event -> outcome A * list event.

Definition ret {A} (a : A) : M A := fun log => (Returned a, log).

Definition throw {A} (error : jsstring) : M A := fun log => (Thrown error, log).

Definition bind {A B} (m : M A) (k : A -> M B) : M B :=
  fun log =>
    match m log with
    | (Returned a, log') => k a log'
    | (Thrown error, log') => (Thrown error, log')
    end.

(** A library call: it is logged, then it returns or throws. *)
Definition call {A} (e : event) (result : outcome A) : M A :=
  fun log => (result, log ++ [e]).

(** [try { body } catch (error) { handler }]. *)
Definition try_catch {A} (body : M A) (handler : jsstring -> M A) : M A :=
  fun log =>
    match body log with
    | (Returned a, log') => (Returned a, log')
    | (Thrown error, log') => handler error log'
    end.

Notation "x <- m ;; k" := (bind m (fun x => k))
  (at level 61, m at next level, right associativity).

(** The libraries behind the route. *)
Record Library := {
  arrayBuffer : File -> outcome (list N);
  convertToHtml : list N -> outcome jsstring;
  load : jsstring -> outcome Document;
  html : list node -> jsstring;
  parseHtml : jsstring -> list node;
  sanitize : jsstring -> outcome jsstring;
  asBlob : jsstring -> outcome (list N);
  blobArrayBuffer : list N -> outcome (list N);
  toBase64 : list N -> jsstring
}.

(** ** The assembler and the handler *)

Record Assembled := { documentHtml : jsstring; previewHtml : jsstring }.

Record Response := { status : N; body : list (jsstring * jsstring) }.

(** [NextResponse.json(fields)] and [NextResponse.json(fields, { status })]. *)
Definition json (fields : list (jsstring * jsstring)) (status : N) : Response :=
  {| status := status; body := fields |}.

Definition uploadError : jsstring := lit "Upload a valid .docx file.".

Definition formatError : jsstring :=
  lit "We could not format that document. Please ensure it is a valid .docx exported from Word.".

(** Does the [class] attribute list the token [cls]. *)
Definition hasClass (cls : jsstring) (attribs : list (jsstring * jsstring)) : bool :=
  match find (fun a => JS.eqb (fst a) (lit "class")) attribs with
  | Some (_, v) => existsb (JS.eqb cls) (splitSpaces v)
  | None => false
  end.

(** The children of the first element of class [docx-root], in document
    order. *)
Fixpoint findRoot (n : node) : option (list node) :=
  match n with
  | Element _ attribs children =>
      if hasClass (lit "docx-root") attribs then Some children
      else
        (fix first (nodes : list node) : option (list node) :=
           match nodes with
           | [] => None
           | x :: rest =>
               match findRoot x with
               | Some found => Some found
               | None => first rest
               end
           end) children
  | _ => None
  end.

Fixpoint findRootIn (doc : Document) : option (list node) :=
  match doc with
  | [] => None
  | x :: rest =>
      match findRoot x with
      | Some found => Some found
      | None => findRootIn rest
      end
  end.

(** The request as the handler uses it: [await request.formData()] either
    delivers the form that the body holds, or rejects, as it does on a body
    that is not form data. *)
Record NextRequest := { formData : outcome FormData }.

Section Route.

Variable lib : Library.

(** [$(".docx-root").html()], with the empty string for [null]. *)
Definition rootHtml (doc : Document) : jsstring :=
  match findRootIn doc with
  | Some children => html lib children
  | None => JS.empty
  end.

Definition buildHtmlDocument (bodyMarkup preset : jsstring)
    (options : FormatterOptions) : M Assembled :=
  match PRESET_CONFIG preset with
  | None => throw (lit "TypeError")
  | Some config =>
      let stylesheet := buildStyleSheet config options in
      sanitizedContent <- call (Sanitized bodyMarkup) (sanitize lib bodyMarkup) ;;
      let wrapped := wrapDocument stylesheet sanitizedContent in
      let preview := wrapPreview stylesheet sanitizedContent in
      ret {| documentHtml := wrapped; previewHtml := preview |}
  end.

(** [(formData.get("preset") as StylePresetId) || "classic"], as the property
    key that [PRESET_CONFIG[presetId]] looks up. *)
Definition presetKey (formData : FormData) : jsstring :=
  match get formData (lit "preset") with
  | Some (EntryString s) =>
      if Nat.eqb (List.length s) 0%nat then lit "classic" else s
  | Some (EntryFile _) => lit "[object File]"
  | None => lit "classic"
  end.

(** [PRESET_CONFIG[presetId] ? presetId : "classic"]. *)
Definition choosePreset (formData : FormData) : jsstring :=
  let presetId := presetKey formData in
  match PRESET_CONFIG presetId with
  | Some _ => presetId
  | None => lit "classic"
  end.

(** The three conditional stages of the [try] block (lines 321-331). *)
Definition applyTransforms (options : FormatterOptions) (doc : Document) : Document :=
  let doc := if tidySpacing options
             then normalizeSpacing (html lib) (parseHtml lib) doc else doc in
  let doc := if titleCaseHeadings options then applyTitleCase doc else doc in
  let doc := if convertQuotes options then applySmartQuotes doc else doc in
  doc.

(** The markup handed to [load]. *)
Definition rootMarkup (rawHtml : jsstring) : jsstring :=
  lit "<div class=" ++ [quote] ++ lit "docx-root" ++ [quote] ++ lit ">"
  ++ rawHtml ++ lit "</div>".

(** The body of the [try] block. *)
Definition formatFile (file : File) (chosenPreset : jsstring)
    (options : FormatterOptions) : M Response :=
  buffer <- call (FileRead file) (arrayBuffer lib file) ;;
  rawHtml <- call (Decoded buffer) (convertToHtml lib buffer) ;;
  doc <- call (Loaded (rootMarkup rawHtml)) (load lib (rootMarkup rawHtml)) ;;
  let doc := applyTransforms options doc in
  let bodyMarkup := rootHtml doc in
  assembled <- buildHtmlDocument bodyMarkup chosenPreset options ;;
  docxBlob <- call (Encoded (documentHtml assembled))
                   (asBlob lib (documentHtml assembled)) ;;
  docxBuffer <- call (BlobRead docxBlob) (blobArrayBuffer lib docxBlob) ;;
  let base64 := toBase64 lib docxBuffer in
  ret (json [(lit "base64", base64);
             (lit "previewHtml", previewHtml assembled);
             (lit "appliedPreset", chosenPreset)] 200).

(** The handler, on the form that [request.formData()] delivers. *)
Definition POST (formData : FormData) : M Response :=
  match get formData (lit "file") with
  | Some (EntryFile file) =>
      let chosenPreset := choosePreset formData in
      let options := readOptions formData in
      try_catch (formatFile file chosenPreset options)
        (fun error =>
           _ <- call (ErrorLogged error) (Returned tt) ;;
           ret (json [(lit "error", formatError)] 500))
  | _ => ret (json [(lit "error", uploadError)] 400)
  end.

(** The exported handler from the request on: line 296 awaits the form before
    the [try] block is entered, so that a rejection there leaves the handler
    as it is; on the form delivered the handler goes on as [POST]. *)
Definition POST_request (request : NextRequest) : M Response :=
  match formData request with
  | Returned form => POST form
  | Thrown error => throw error
  end.

End Route.

(** ** Stand-ins for the libraries

    A library to run the handler on concrete forms: the upload's bytes are
    read as the markup that the decoder would produce, [load] puts the parsed
    markup into a document, the sanitiser drops [script] elements and [on...]
    attributes, and the encoder keeps the code units of the document. *)

Module Standin.

Definition isHandler (a : jsstring * jsstring) : bool :=
  startsWith (lit "on") (fst a).

Fixpoint clean (n : node) : list node :=
  match n with
  | Element name attribs children =>
      if JS.eqb name (lit "script") then []
      else [Element name (filter (fun a => negb (isHandler a)) attribs)
                    (flat_map clean children)]
  | _ => [n]
  end.

Definition library : Library :=
  {| arrayBuffer := fun file => Returned (fileBytes file);
     convertToHtml := fun buffer => Returned buffer;
     load := fun markup =>
       Returned [Element (lit "html") []
                   [Element (lit "head") [] [];
                    Element (lit "body") [] (Reference.parse markup)]];
     html := Reference.render;
     parseHtml := Reference.parse;
     sanitize := fun markup =>
       Returned (Reference.render (flat_map clean (Reference.parse markup)));
     asBlob := fun documentHtml => Returned documentHtml;
     blobArrayBuffer := fun blob => Returned blob;
     toBase64 := fun bytes => bytes |}.

End Standin.

(** * Notions used in the statements *)

(** ** Option flags *)

(** The five flags of the request, with the defaults of the interface table. *)
Inductive flag := Justify | TidySpacing | TitleCaseHeadings | AutoNumberHeadings | ConvertQuotes.

Definition flagName (f : flag) : jsstring :=
  match f with
  | Justify => lit "justify"
  | TidySpacing => lit "tidySpacing"
  | TitleCaseHeadings => lit "titleCaseHeadings"
  | AutoNumberHeadings => lit "autoNumberHeadings"
  | ConvertQuotes => lit "convertQuotes"
  end.

Definition flagDefault (f : flag) : bool :=
  match f with
  | AutoNumberHeadings => false
  | _ => true
  end.

Definition flagOf (f : flag) (options : FormatterOptions) : bool :=
  match f with
  | Justify => justify options
  | TidySpacing => tidySpacing options
  | TitleCaseHeadings => titleCaseHeadings options
  | AutoNumberHeadings => autoNumberHeadings options
  | ConvertQuotes => convertQuotes options
  end.

Definition isTrueToken (s : jsstring) : bool :=
  JS.eqb s (lit "true") || JS.eqb s (lit "1").

(** ** Directional quotes *)

(** The rule in the words of the specification: a straight quote becomes an
    opening curly quote when it is at the start of the string or follows
    white space or an opening bracket, and a closing one otherwise. *)
Definition opensAfter (previous : option code_unit) : bool :=
  match previous with
  | None => true
  | Some c => isOpener c
  end.

Definition curl (previous : option code_unit) (c : code_unit) : code_unit :=
  if N.eqb c quote then (if opensAfter previous then ldquo else rdquo)
  else if N.eqb c apostrophe then (if opensAfter previous then lsquo else rsquo)
  else c.

Fixpoint directionalQuotes_from (previous : option code_unit) (s : jsstring) : jsstring :=
  match s with
  | [] => []
  | c :: r => curl previous c :: directionalQuotes_from (Some c) r
  end.

Definition directionalQuotes (s : jsstring) : jsstring :=
  directionalQuotes_from None s.

(** The same rule for one kind of quote [q], opening as [o] and closing as
    [cl]. *)
Definition curl1 (q o cl : code_unit) (previous : option code_unit) (c : code_unit)
  : code_unit :=
  if N.eqb c q then (if opensAfter previous then o else cl) else c.

Fixpoint direct1_from (q o cl : code_unit) (previous : option code_unit)
    (s : jsstring) : jsstring :=
  match s with
  | [] => []
  | c :: r => curl1 q o cl previous c :: direct1_from q o cl (Some c) r
  end.

(** ** Trees *)

Definition para (children : list node) : node := Element (lit "p") [] children.
Definition h1 (children : list node) : node := Element (lit "h1") [] children.
Definition td (children : list node) : node := Element (lit "td") [] children.

(** ** Numbering rules *)

(** The counter rules that the specification asks of a numbered stylesheet:
    the content container resets the level-1 counter, a level-1 heading
    increments it and resets level 2, a level-2 heading increments its
    counter and resets level 3, a level-3 heading increments its counter; the
    numbers are dotted, in the preset's heading weight and accent colour. *)
Definition counterRules (preset : PresetConfig) : list jsstring :=
  [lines [lit "  .docx-content {"; lit "    counter-reset: h1;"];
   lines [lit "  .docx-content h1 {"; lit "    counter-reset: h2;"];
   lines [lit "  .docx-content h1::before {"; lit "    counter-increment: h1;";
          lit "    content: counter(h1) " ++ [quote] ++ lit ". " ++ [quote] ++ lit ";"];
   lines [lit "  .docx-content h2 {"; lit "    counter-reset: h3;"];
   lines [lit "  .docx-content h2::before {"; lit "    counter-increment: h2;";
          lit "    content: counter(h1) " ++ [quote] ++ lit "." ++ [quote]
          ++ lit " counter(h2) " ++ [quote] ++ lit " " ++ [quote] ++ lit ";"];
   lines [lit "  .docx-content h3::before {"; lit "    counter-increment: h3;";
          lit "    content: counter(h1) " ++ [quote] ++ lit "." ++ [quote]
          ++ lit " counter(h2) " ++ [quote] ++ lit "." ++ [quote]
          ++ lit " counter(h3) " ++ [quote] ++ lit " " ++ [quote] ++ lit ";"];
   lines [lit "  .docx-content h1::before,"; lit "  .docx-content h2::before,";
          lit "  .docx-content h3::before {";
          lit "    font-weight: " ++ interp (headingWeight preset) ++ lit ";";
          lit "    color: " ++ interp (accent preset) ++ lit ";"]].

(** What any counter rule is made of. *)
Definition counterWords : list jsstring :=
  [lit "counter-reset"; lit "counter-increment"; lit "counter("; lit "::before"].

(** ** Logs *)

(** Whatever the log shows as handed to the encoder is a document wrapped
    around a string that the sanitiser returned, for a markup the log shows
    as sanitised before. *)
Definition EncodesSanitized (lib : Library) (log : list event) : Prop :=
  forall before documentHtml after,
    log = before ++ Encoded documentHtml :: after ->
    exists bodyMarkup sanitizedContent stylesheet,
      In (Sanitized bodyMarkup) before
      /\ sanitize lib bodyMarkup = Returned sanitizedContent
      /\ documentHtml = wrapDocument stylesheet sanitizedContent.

(** All the library calls of a request return. *)
Definition StagesReturn (lib : Library) (file : File) (chosenPreset : jsstring)
    (options : FormatterOptions) (base64 preview : jsstring) : Prop :=
  exists buffer rawHtml doc config sanitizedContent docxBlob docxBuffer,
    arrayBuffer lib file = Returned buffer
    /\ convertToHtml lib buffer = Returned rawHtml
    /\ load lib (rootMarkup rawHtml) = Returned doc
    /\ PRESET_CONFIG chosenPreset = Some config
    /\ sanitize lib (rootHtml lib (applyTransforms lib options doc))
       = Returned sanitizedContent
    /\ asBlob lib (wrapDocument (buildStyleSheet config options) sanitizedContent)
       = Returned docxBlob
    /\ blobArrayBuffer lib docxBlob = Returned docxBuffer
    /\ base64 = toBase64 lib docxBuffer
    /\ preview = wrapPreview (buildStyleSheet config options) sanitizedContent.

(** ** The text around the content *)

(** What [wrapDocument] and [wrapPreview] put before and after the content. *)
Definition documentOpening (stylesheet : jsstring) : jsstring :=
  lines
    [JS.empty;
     lit "    <!doctype html>";
     lit "    <html lang=" ++ [quote] ++ lit "en" ++ [quote] ++ lit ">";
     lit "      <head>";
     lit "        <meta charset=" ++ [quote] ++ lit "utf-8" ++ [quote] ++ lit " />";
     lit "        <title>Formatted Word Document</title>";
     lit "        <style>" ++ stylesheet ++ lit "</style>";
     lit "      </head>";
     lit "      <body>";
     lit "        <div class=" ++ [quote] ++ lit "docx-shell" ++ [quote] ++ lit ">";
     lit "          <div class=" ++ [quote] ++ lit "docx-content" ++ [quote] ++ lit ">";
     lit "            "].

Definition documentClosing : jsstring :=
  lines
    [JS.empty;
     lit "          </div>";
     lit "        </div>";
     lit "      </body>";
     lit "    </html>";
     lit "  "].

Definition previewOpening (stylesheet : jsstring) : jsstring :=
  lines
    [JS.empty;
     lit "    <style>" ++ stylesheet ++ lit "</style>";
     lit "    <div class=" ++ [quote] ++ lit "docx-content" ++ [quote] ++ lit ">";
     lit "      "].

Definition previewClosing : jsstring :=
  lines [JS.empty; lit "    </div>"; lit "  "].

(** An upload for the examples. *)
Definition upload (markup : jsstring) : File :=
  {| fileName := lit "report.docx"; fileBytes := markup |}.

(** ** What one pass of [normalizeSpacing] leaves of a node *)

Section Pass.

Variable render : list node -> jsstring.
Variable parse : jsstring -> list node.

(** A paragraph whose markup normalises to nothing is gone; any other
    paragraph holds its normalised markup, parsed and swept, unless that
    leaves it empty; everything else keeps its place. *)
Fixpoint passNode (n : node) : list node :=
  match n with
  | Element name attribs children =>
      if isP name then
        let normalized := normalizeMarkup (render children) in
        if Nat.eqb (List.length normalized) 0%nat then []
        else
          let el := Element name attribs (parse normalized) in
          if matchesEmptyP el then [] else [sweepNode el]
      else [Element name attribs (flat_map passNode children)]
  | _ => [n]
  end.

(** The normalised markup of a paragraph is settled when it holds no
    [&nbsp;], when parsing and serialising give it back, and when no empty
    paragraph comes out of parsing it. *)
Definition settledMarkup (children : list node) : Prop :=
  let normalized := normalizeMarkup (render children) in
  normalized = []
  \/ (occurs nbsp normalized = false
      /\ render (parse normalized) = normalized
      /\ sweep (parse normalized) = parse normalized).

(** Every paragraph that the loop reaches is settled. *)
Fixpoint Settled (n : node) : Prop :=
  match n with
  | Element name _ children =>
      if isP name then settledMarkup children
      else
        (fix all (nodes : list node) : Prop :=
           match nodes with
           | [] => True
           | x :: rest => Settled x /\ all rest
           end) children
  | _ => True
  end.

(** What the loop and the sweep together make of a node that is not a
    paragraph: it is not swept, and it comes out as [passNode] says. *)
Definition passes (n : node) : Prop :=
  match n with
  | Element name _ _ =>
      isP name = false ->
      matchesEmptyP (tidyNode render parse n) = false
      /\ [sweepNode (tidyNode render parse n)] = passNode n
  | _ => True
  end.

End Pass.

(** ** The tree outside the paragraphs *)

(** A node with its paragraphs cut out. *)
Fixpoint outsideP (n : node) : list node :=
  match n with
  | Element name attribs children =>
      if isP name then []
      else [Element name attribs (flat_map outsideP children)]
  | _ => [n]
  end.

(** [e] stands in the tree outside the paragraphs: among the nodes of the
    list, or below one of them that is not a paragraph. *)
Inductive Outside (e : node) : list node -> Prop :=
| outside_here (l1 l2 : list node) : Outside e (l1 ++ e :: l2)
| outside_below (l1 l2 : list node) (name : jsstring)
    (attribs : list (jsstring * jsstring)) (children : list node) :
    isP name = false ->
    Outside e children ->
    Outside e (l1 ++ Element name attribs children :: l2).

(** Is there a paragraph at or below the node. *)
Fixpoint hasP (n : node) : bool :=
  match n with
  | Element name _ children => isP name || existsb hasP children
  | _ => false
  end.

(** ** Markup without runs of white space *)

(** No two white-space units stand side by side; [previousSpace] says that
    the unit before the string is one. *)
Fixpoint noRuns_from (previousSpace : bool) (s : jsstring) : bool :=
  match s with
  | [] => true
  | c :: r => negb (previousSpace && isSpace c) && noRuns_from (isSpace c) r
  end.

(** The string is empty or starts with a unit that is not white space. *)
Definition startsClean (s : jsstring) : bool :=
  match s with
  | [] => true
  | c :: _ => negb (isSpace c)
  end.

(** ** Notions for the further properties *)

(** No unit of the string is white space. *)
Definition noSpace (s : jsstring) : bool :=
  forallb (fun c => negb (isSpace c)) s.

(** Every unit of the string is white space. *)
Definition allSpace (s : jsstring) : bool := forallb isSpace s.

(** The units on which the case mapping of this development is that of
    JavaScript: the ASCII range and white space. *)
Definition plainUnits (s : jsstring) : bool :=
  forallb (fun c => N.ltb c 128 || isSpace c) s.

(** A string in lower case: [toLowerCase] leaves each of its units. *)
Definition lowered (s : jsstring) : Prop := Forall (fun c => lowerUnit c = c) s.

(** The pieces that [split(/\s+/)] gives after a separator: none holds white
    space and only the last may be empty. *)
Fixpoint tailPieces (ps : list jsstring) : Prop :=
  match ps with
  | [] => True
  | q :: rest =>
      noSpace q = true
      /\ match rest with
         | [] => True
         | _ :: _ => q <> [] /\ tailPieces rest
         end
  end.

(** The pieces of a whole string: the first may be empty as well. *)
Definition pieces (ps : list jsstring) : Prop :=
  match ps with
  | [] => False
  | p :: rest => noSpace p = true /\ tailPieces rest
  end.

(** A white-space unit stands right before a punctuation mark. *)
Fixpoint spaceThenMark (s : jsstring) : bool :=
  match s with
  | [] => false
  | c :: r =>
      match r with
      | d :: _ => (isSpace c && isPunct d) || spaceThenMark r
      | [] => false
      end
  end.

(** A straight quote, double or single. *)
Definition isStraight (c : code_unit) : bool :=
  N.eqb c quote || N.eqb c apostrophe.

(** A tree without the data of its text nodes: the elements with their names
    and attributes, the comments, and the places of the text nodes. *)
Fixpoint skeleton (n : node) : node :=
  match n with
  | Text _ => Text []
  | Comment data => Comment data
  | Element name attribs children => Element name attribs (map skeleton children)
  end.

(** A node with its headings of levels 1 to 3 cut out. *)
Fixpoint outsideHeadings (n : node) : list node :=
  match n with
  | Element name attribs children =>
      if isHeading name then []
      else [Element name attribs (flat_map outsideHeadings children)]
  | _ => [n]
  end.

(** The place of a library call in the [try] block, and 6 for the error log
    of the [catch]. *)
Definition stageIndex (e : event) : nat :=
  match e with
  | FileRead _ => 0
  | Decoded _ => 1
  | Loaded _ => 2
  | Sanitized _ => 3
  | Encoded _ => 4
  | BlobRead _ => 5
  | ErrorLogged _ => 6
  end%nat.

(** The names of the form fields that the handler reads. *)
Definition fieldNames : list jsstring :=
  map lit ["file"; "preset"; "justify"; "tidySpacing"; "titleCaseHeadings";
           "autoNumberHeadings"; "convertQuotes"]%string.

(** The names of the three presets. *)
Definition presetNames : list jsstring :=
  map lit ["classic"; "modern"; "executive"]%string.

(** The declarations that carry a preset's values and the [justify] option
    into the stylesheet. *)
Definition presetRules (preset : PresetConfig) (options : FormatterOptions)
  : list jsstring :=
  [lines [lit "  @page {"; lit "    margin: " ++ interp (pageMargin preset) ++ lit ";"];
   lines [lit "  body {";
          lit "    font-family: " ++ interp (fontFamily preset) ++ lit ";";
          lit "    font-size: " ++ interp (bodySize preset) ++ lit "pt;";
          lit "    line-height: " ++ interp (lineHeight preset) ++ lit ";"];
   lines [lit "  .docx-shell {"; lit "    min-height: 100vh;";
          lit "    background: " ++ interp (background preset) ++ lit ";"];
   lines [lit "  .docx-content p {";
          lit "    margin: " ++ interp (paragraphSpacing preset) ++ lit "pt 0;";
          if justify options then lit "    text-align: justify;"
          else lit "    text-align: left;"];
   lines [lit "  .docx-content h6 {";
          lit "    font-family: " ++ interp (headingFont preset) ++ lit ";";
          lit "    font-weight: " ++ interp (headingWeight preset) ++ lit ";";
          lit "    letter-spacing: -0.02em;";
          lit "    color: " ++ interp (accent preset) ++ lit ";"];
   lines [lit "  .docx-content blockquote {";
          lit "    border-left: 4px solid " ++ interp (accent preset) ++ lit ";"]].

(** ** Siblings and places in the tree (C7) *)

Definition isElement (n : node) : bool :=
  match n with
  | Element _ _ _ => true
  | _ => false
  end.

(** Text and comments only. *)
Definition noElement (nodes : list node) : bool :=
  forallb (fun n => negb (isElement n)) nodes.

(** The paragraph that precedes: among the siblings [earlier], in document
    order, the last element is a paragraph, and [children] are its
    children. *)
Definition ParagraphBefore (earlier children : list node) : Prop :=
  exists pre name attribs gap,
    earlier = pre ++ Element name attribs children :: gap
    /\ isP name = true /\ noElement gap = true.

(** No paragraph precedes: there is no element among the siblings [earlier],
    or the last of them is not a paragraph. *)
Definition NoParagraphBefore (earlier : list node) : Prop :=
  noElement earlier = true
  \/ exists pre name attribs children gap,
       earlier = pre ++ Element name attribs children :: gap
       /\ isP name = false /\ noElement gap = true.

(** [Siblings nodes doc]: [nodes] is a whole list of siblings of the tree
    [doc], at the top or as the children of an element that is not a
    paragraph and does not lie in one. *)
Inductive Siblings (nodes : list node) : list node -> Prop :=
| siblings_top : Siblings nodes nodes
| siblings_below (l1 l2 : list node) (name : jsstring)
    (attribs : list (jsstring * jsstring)) (children : list node) :
    isP name = false ->
    Siblings nodes children ->
    Siblings nodes (l1 ++ Element name attribs children :: l2).

(** [Anywhere n doc]: the node [n] stands in the tree [doc], at any depth. *)
Inductive Anywhere (n : node) : list node -> Prop :=
| anywhere_here (l1 l2 : list node) : Anywhere n (l1 ++ n :: l2)
| anywhere_below (l1 l2 : list node) (name : jsstring)
    (attribs : list (jsstring * jsstring)) (children : list node) :
    Anywhere n children ->
    Anywhere n (l1 ++ Element name attribs children :: l2).

(** The tree that [load] makes of the handler's markup: the converted content
    under [html], [body] and the [docx-root] division. *)
Definition docxRoot (children : list node) : Document :=
  [Element (lit "html") []
     [Element (lit "body") []
        [Element (lit "div") [(lit "class", lit "docx-root")] children]]].
(** * Properties *)

(** ** Strings *)

Lemma eqb_eq (a b : jsstring) : JS.eqb a b = true <-> a = b.
Proof.
  revert b; induction a as [|x a IH]; intros [|y b]; simpl; split; intro H;
    try reflexivity; try discriminate.
  - apply andb_true_iff in H as [Hx Hab].
    apply N.eqb_eq in Hx. apply IH in Hab. now subst.
  - injection H as -> ->. rewrite N.eqb_refl. simpl. now apply IH.
Qed.

Lemma eqb_refl (a : jsstring) : JS.eqb a a = true.
Proof. now apply eqb_eq. Qed.

Lemma eqb_neq (a b : jsstring) : JS.eqb a b = false <-> a <> b.
Proof.
  split.
  - intros H E. apply eqb_eq in E. congruence.
  - intro H. destruct (JS.eqb a b) eqn:E; [|reflexivity].
    apply eqb_eq in E. contradiction.
Qed.

(** ** Option flags (C2) *)

(** C2, as stated, fails: a submitted value that is not a true-token does not
    fall back to the default.  The form [justify=false] parses to [false],
    while the default of [justify] is [true]. *)
Lemma unrecognized_value_is_not_default :
  ~ (forall (f : flag) (formData : FormData),
        (forall s, get formData (flagName f) = Some (EntryString s) ->
                   isTrueToken s = false) ->
        flagOf f (readOptions formData) = flagDefault f).
Proof.
  intro H.
  specialize (H Justify [(lit "justify", EntryString (lit "false"))]).
  assert (E : flagOf Justify (readOptions [(lit "justify", EntryString (lit "false"))])
              = false) by reflexivity.
  rewrite H in E; [discriminate|].
  intros s Hs. vm_compute in Hs. injection Hs as <-. reflexivity.
Qed.

(** C2, amended: a flag whose field is absent, or holds a file, takes its
    default; a flag whose field holds a string is [true] exactly when the
    string is ["true"] or ["1"], whatever its default. *)
Theorem flag_parsing (f : flag) (formData : FormData) :
  flagOf f (readOptions formData) =
  match get formData (flagName f) with
  | Some (EntryString s) => isTrueToken s
  | Some (EntryFile _) => flagDefault f
  | None => flagDefault f
  end.
Proof.
  destruct f; simpl; unfold parseBoolean;
    match goal with |- context [get formData ?k] => destruct (get formData k) as [[s|file]|] end;
    reflexivity.
Qed.

(** ** Title case (C3) *)

(** The example of the specification. *)
Example toTitleCase_example :
  toTitleCase (lit "the quick BROWN fox jumps over a lazy-dog")
  = lit "The Quick Brown Fox Jumps Over a Lazy-Dog".
Proof. reflexivity. Qed.

(** C3: the first and the last word are meant to be capitalised whatever they
    are, and the code tests for them by position in [words].  When the text
    of the heading ends (or starts) with white space, the last (first) piece
    of the split is the empty string, and a connector word next to it is left
    in lower case: the heading [<h1>what we stand for </h1>] becomes
    [What We Stand for ]. *)
Theorem title_case_misses_last_word :
  toTitleCase (lit "what we stand for ") = lit "What We Stand for "
  /\ toTitleCase (lit " the end") = lit " the End"
  /\ applyTitleCase [h1 [Text (lit "what we stand for ")]]
     = [h1 [Text (lit "What We Stand for ")]].
Proof. repeat split; reflexivity. Qed.

(** ** Smart quotes (C8) *)

Section OneQuote.

(** One kind of quote: the pass that opens, then the pass that closes. *)
Variables q o cl : code_unit.
Hypothesis q_not_opener : isOpener q = false.
Hypothesis o_not_q : N.eqb o q = false.

Lemma replaceAfterOpener_cons (n : nat) :
  forall s, (List.length s <= n)%nat -> forall p,
    replaceUnit q cl (replaceAfterOpener q o (p :: s))
    = (if N.eqb p q then cl else p) :: direct1_from q o cl (Some p) s.
Proof.
  induction n as [|n IH]; intros [|c r] Hlen p; simpl in Hlen; try lia;
    try reflexivity.
  change (replaceAfterOpener q o (p :: c :: r))
    with (if isOpener p && N.eqb c q
          then p :: o :: replaceAfterOpener q o r
          else p :: replaceAfterOpener q o (c :: r)).
  destruct (isOpener p && N.eqb c q) eqn:E.
  - apply andb_true_iff in E as [Hp Hc].
    cbn [replaceUnit map direct1_from]. unfold curl1 at 1. cbn [opensAfter].
    rewrite Hc, Hp, o_not_q. do 2 f_equal.
    apply N.eqb_eq in Hc. subst c.
    destruct r as [|c2 r2]; [reflexivity|].
    fold (replaceUnit q cl (replaceAfterOpener q o (c2 :: r2))).
    rewrite IH by (simpl in *; lia).
    cbn [direct1_from]. unfold curl1. cbn [opensAfter]. now rewrite q_not_opener.
  - cbn [replaceUnit map]. fold (replaceUnit q cl (replaceAfterOpener q o (c :: r))).
    rewrite IH by lia. cbn [direct1_from]. do 2 f_equal.
    unfold curl1. cbn [opensAfter].
    destruct (N.eqb c q); [|reflexivity].
    rewrite andb_true_r in E. now rewrite E.
Qed.

Lemma replaceAfterOpener_after (x : code_unit) (s : jsstring) :
  isOpener x = false ->
  replaceUnit q cl (replaceAfterOpener q o s) = direct1_from q o cl (Some x) s.
Proof.
  intro Hx. destruct s as [|c r]; [reflexivity|].
  rewrite (@replaceAfterOpener_cons (List.length r)) by lia.
  cbn [direct1_from]. unfold curl1. cbn [opensAfter]. now rewrite Hx.
Qed.

Lemma one_quote_passes (s : jsstring) :
  replaceUnit q cl (replaceOpening q o s) = direct1_from q o cl None s.
Proof.
  destruct s as [|c r]; [reflexivity|].
  unfold replaceOpening. cbn [direct1_from]. unfold curl1. cbn [opensAfter].
  destruct (N.eqb c q) eqn:E.
  - cbn [replaceUnit map]. rewrite o_not_q. f_equal.
    apply N.eqb_eq in E. subst c.
    now apply replaceAfterOpener_after.
  - rewrite (@replaceAfterOpener_cons (List.length r)) by lia. now rewrite E.
Qed.

End OneQuote.

Lemma isOpener_curl1_double (previous : option code_unit) (c : code_unit) :
  isOpener (curl1 quote ldquo rdquo previous c) = isOpener c.
Proof.
  unfold curl1. destruct (N.eqb c quote) eqn:E; [|reflexivity].
  apply N.eqb_eq in E. subst c. now destruct (opensAfter previous).
Qed.

Lemma two_quote_passes (s : jsstring) :
  forall previous previous',
    opensAfter previous' = opensAfter previous ->
    direct1_from apostrophe lsquo rsquo previous'
      (direct1_from quote ldquo rdquo previous s)
    = directionalQuotes_from previous s.
Proof.
  induction s as [|c r IH]; intros previous previous' Hp; [reflexivity|].
  cbn [direct1_from directionalQuotes_from]. f_equal.
  - unfold curl1, curl. rewrite Hp.
    destruct (N.eqb c quote) eqn:E; [now destruct (opensAfter previous)|reflexivity].
  - apply IH. cbn [opensAfter]. apply isOpener_curl1_double.
Qed.

Lemma convertSmartQuotes_rule (value : jsstring) :
  convertSmartQuotes value = directionalQuotes value.
Proof.
  unfold convertSmartQuotes, directionalQuotes.
  rewrite (@one_quote_passes quote ldquo rdquo) by reflexivity.
  rewrite (@one_quote_passes apostrophe lsquo rsquo) by reflexivity.
  now apply two_quote_passes.
Qed.

(** C8: the four replacements of [convertSmartQuotes] amount to the
    directional rule, applied to every straight quote of the string by what
    stands before it; [He said "hello" and it's fine] becomes the same text
    with curly quotes. *)
Theorem convertSmartQuotes_directional :
  (forall value, convertSmartQuotes value = directionalQuotes value)
  /\ convertSmartQuotes
       (lit "He said " ++ [quote] ++ lit "hello" ++ [quote] ++ lit " and it's fine")
     = lit "He said " ++ [ldquo] ++ lit "hello" ++ [rdquo]
       ++ lit " and it" ++ [rsquo] ++ lit "s fine".
Proof.
  split; [exact convertSmartQuotes_rule|reflexivity].
Qed.

Lemma applySmartQuotes_text (name : jsstring) (attribs : list (jsstring * jsstring))
    (data : jsstring) :
  quoteBelow (Element name attribs [Text data])
  = Element name attribs [Text (directionalQuotes data)].
Proof.
  cbn. now rewrite convertSmartQuotes_rule.
Qed.

(** ** The stylesheet (C9) *)

Lemma PRESET_CONFIG_cases (key : jsstring) (preset : PresetConfig) :
  PRESET_CONFIG key = Some preset ->
  preset = classic \/ preset = modern \/ preset = executive \/ preset = inherited.
Proof.
  unfold PRESET_CONFIG.
  destruct (JS.eqb key (lit "classic")); [intros [= <-]; auto|].
  destruct (JS.eqb key (lit "modern")); [intros [= <-]; auto|].
  destruct (JS.eqb key (lit "executive")); [intros [= <-]; auto|].
  destruct (has objectPrototypeKeys key); [intros [= <-]; auto|discriminate].
Qed.

(** C9: for every preset of the table and every option record, the stylesheet
    holds the counter rules of the three heading levels (resets, increments,
    dotted numbers, heading weight and accent colour) exactly when
    [autoNumberHeadings] is set, and without it holds no counter rule at
    all. *)
Theorem numbering_iff_autoNumberHeadings (key : jsstring) (preset : PresetConfig)
    (options : FormatterOptions) :
  PRESET_CONFIG key = Some preset ->
  let sheet := buildStyleSheet preset options in
  forallb (fun rule => occurs rule sheet) (counterRules preset)
  = autoNumberHeadings options
  /\ existsb (fun word => occurs word sheet) counterWords
     = autoNumberHeadings options.
Proof.
  intro H. apply PRESET_CONFIG_cases in H.
  destruct options as [j t tc a q].
  destruct H as [-> | [-> | [-> | ->]]]; destruct j, a;
    vm_compute; split; reflexivity.
Qed.

Lemma numbering_iff_autoNumberHeadings_witness :
  PRESET_CONFIG (lit "executive") = Some executive
  /\ forallb (fun rule => occurs rule (buildStyleSheet executive (readOptions [])))
       (counterRules executive) = false.
Proof.
  split; [reflexivity|].
  exact (proj1 (@numbering_iff_autoNumberHeadings (lit "executive") executive
                  (readOptions []) eq_refl)).
Defined.

(** ** The assembler (C1) *)

Lemma wrapDocument_split (stylesheet content : jsstring) :
  wrapDocument stylesheet content
  = documentOpening stylesheet ++ content ++ documentClosing.
Proof.
  unfold wrapDocument, documentOpening, documentClosing, lines.
  cbn [join]. unfold JS.empty. repeat rewrite <- app_assoc. reflexivity.
Qed.

Lemma wrapPreview_split (stylesheet content : jsstring) :
  wrapPreview stylesheet content
  = previewOpening stylesheet ++ content ++ previewClosing.
Proof.
  unfold wrapPreview, previewOpening, previewClosing, lines.
  cbn [join]. unfold JS.empty. repeat rewrite <- app_assoc. reflexivity.
Qed.

Lemma buildHtmlDocument_run (lib : Library) (bodyMarkup preset : jsstring)
    (config : PresetConfig) (options : FormatterOptions) (log : list event) :
  PRESET_CONFIG preset = Some config ->
  buildHtmlDocument lib bodyMarkup preset options log
  = (match sanitize lib bodyMarkup with
     | Returned sanitizedContent =>
         Returned
           {| documentHtml := wrapDocument (buildStyleSheet config options) sanitizedContent;
              previewHtml := wrapPreview (buildStyleSheet config options) sanitizedContent |}
     | Thrown error => Thrown error
     end, log ++ [Sanitized bodyMarkup]).
Proof.
  intro H. unfold buildHtmlDocument. rewrite H. unfold bind, call, ret.
  now destruct (sanitize lib bodyMarkup).
Qed.

(** The run of the [try] block, stage by stage. *)
Lemma formatFile_run (lib : Library) (file : File) (chosenPreset : jsstring)
    (config : PresetConfig) (options : FormatterOptions) :
  PRESET_CONFIG chosenPreset = Some config ->
  formatFile lib file chosenPreset options [] =
  match arrayBuffer lib file with
  | Thrown e => (Thrown e, [FileRead file])
  | Returned buffer =>
  match convertToHtml lib buffer with
  | Thrown e => (Thrown e, [FileRead file; Decoded buffer])
  | Returned rawHtml =>
  match load lib (rootMarkup rawHtml) with
  | Thrown e => (Thrown e, [FileRead file; Decoded buffer; Loaded (rootMarkup rawHtml)])
  | Returned doc =>
  let bodyMarkup := rootHtml lib (applyTransforms lib options doc) in
  let stylesheet := buildStyleSheet config options in
  match sanitize lib bodyMarkup with
  | Thrown e =>
      (Thrown e, [FileRead file; Decoded buffer; Loaded (rootMarkup rawHtml);
                  Sanitized bodyMarkup])
  | Returned sanitizedContent =>
  match asBlob lib (wrapDocument stylesheet sanitizedContent) with
  | Thrown e =>
      (Thrown e, [FileRead file; Decoded buffer; Loaded (rootMarkup rawHtml);
                  Sanitized bodyMarkup;
                  Encoded (wrapDocument stylesheet sanitizedContent)])
  | Returned docxBlob =>
  match blobArrayBuffer lib docxBlob with
  | Thrown e =>
      (Thrown e, [FileRead file; Decoded buffer; Loaded (rootMarkup rawHtml);
                  Sanitized bodyMarkup;
                  Encoded (wrapDocument stylesheet sanitizedContent);
                  BlobRead docxBlob])
  | Returned docxBuffer =>
      (Returned (json [(lit "base64", toBase64 lib docxBuffer);
                       (lit "previewHtml", wrapPreview stylesheet sanitizedContent);
                       (lit "appliedPreset", chosenPreset)] 200),
       [FileRead file; Decoded buffer; Loaded (rootMarkup rawHtml);
        Sanitized bodyMarkup;
        Encoded (wrapDocument stylesheet sanitizedContent);
        BlobRead docxBlob])
  end end end end end end.
Proof.
  intro H. unfold formatFile, bind at 1, call at 1. cbn [app].
  destruct (arrayBuffer lib file) as [buffer|e]; [|reflexivity].
  unfold bind at 1, call at 1. cbn [app].
  destruct (convertToHtml lib buffer) as [rawHtml|e]; [|reflexivity].
  unfold bind at 1, call at 1. cbn [app].
  destruct (load lib (rootMarkup rawHtml)) as [doc|e]; [|reflexivity].
  unfold bind at 1. rewrite (@buildHtmlDocument_run lib _ _ _ options _ H). cbn [app].
  destruct (sanitize lib _) as [sanitizedContent|e]; [|reflexivity].
  cbn [documentHtml previewHtml]. unfold bind at 1, call at 1. cbn [app].
  destruct (asBlob lib _) as [docxBlob|e]; [|reflexivity].
  unfold bind, call, ret. cbn [app].
  destruct (blobArrayBuffer lib docxBlob) as [docxBuffer|e]; reflexivity.
Qed.

Lemma choosePreset_defined (formData : FormData) :
  exists config, PRESET_CONFIG (choosePreset formData) = Some config.
Proof.
  unfold choosePreset.
  destruct (PRESET_CONFIG (presetKey formData)) as [config|] eqn:E.
  - now exists config.
  - now exists classic.
Qed.

(** Where an event sits in a short log. *)
Ltac locate H :=
  repeat match type of H with
         | _ :: _ = ?b ++ _ :: _ =>
             let Hhead := fresh "Hhead" in
             destruct b as [|? b]; cbn [app] in H;
             [ injection H as Hhead H; try discriminate Hhead
             | injection H as Hhead H;
               match type of Hhead with _ = ?y => subst y end ]
         | [] = ?b ++ _ :: _ => destruct b; discriminate H
         end.

Lemma formatFile_encodes_sanitized (lib : Library) (file : File)
    (chosenPreset : jsstring) (config : PresetConfig) (options : FormatterOptions) :
  PRESET_CONFIG chosenPreset = Some config ->
  forall tail, (forall e, In e tail -> exists error, e = ErrorLogged error) ->
  EncodesSanitized lib (snd (formatFile lib file chosenPreset options []) ++ tail).
Proof.
  intros H tail Htail. rewrite (@formatFile_run lib file _ _ options H).
  assert (Hno : forall before d after, tail = before ++ Encoded d :: after -> False).
  { intros before d after E.
    destruct (Htail (Encoded d)) as [error He]; [|discriminate].
    rewrite E. apply in_or_app. right. now left. }
  destruct (arrayBuffer lib file) as [buffer|e];
    [destruct (convertToHtml lib buffer) as [rawHtml|e];
     [destruct (load lib (rootMarkup rawHtml)) as [doc|e];
      [cbv zeta; destruct (sanitize lib _) as [clean|e] eqn:Es;
       [destruct (asBlob lib _) as [blob|e];
        [destruct (blobArrayBuffer lib blob) as [bytes|e]|]|]|]|]|];
    cbn [snd app]; intros before d after E; locate E;
    try (exfalso; eapply Hno; eassumption).
  all: subst d; eexists _, clean, _;
    (split; [|split; [exact Es|reflexivity]]); cbn; tauto.
Qed.

Lemma POST_encodes_sanitized (lib : Library) (formData : FormData) :
  EncodesSanitized lib (snd (POST lib formData [])).
Proof.
  unfold POST.
  destruct (get formData (lit "file")) as [[s|file]|];
    try (intros before d after E; cbn in E; destruct before; discriminate E).
  destruct (choosePreset_defined formData) as [config Hc].
  pose proof (@formatFile_encodes_sanitized lib file _ config (readOptions formData) Hc)
    as H.
  unfold try_catch.
  destruct (formatFile lib file (choosePreset formData) (readOptions formData) [])
    as [[ok|error] log] eqn:E; cbn [snd] in *.
  - specialize (H [] ltac:(intros e [])). now rewrite app_nil_r in H.
  - unfold bind, call, ret. cbn [snd].
    apply H. intros e [<-|[]]. now exists error.
Qed.

(** C1: the assembler calls the sanitiser once, on the body markup, and puts
    what the sanitiser returns, and nothing else of the body markup, between
    the same fixed text in the document and in the preview; what the handler
    passes to the encoder is such a document. *)
Theorem assembler_embeds_sanitized (lib : Library) (bodyMarkup preset : jsstring)
    (config : PresetConfig) (options : FormatterOptions) (log : list event) :
  PRESET_CONFIG preset = Some config ->
  let stylesheet := buildStyleSheet config options in
  buildHtmlDocument lib bodyMarkup preset options log
  = (match sanitize lib bodyMarkup with
     | Returned sanitizedContent =>
         Returned
           {| documentHtml :=
                documentOpening stylesheet ++ sanitizedContent ++ documentClosing;
              previewHtml :=
                previewOpening stylesheet ++ sanitizedContent ++ previewClosing |}
     | Thrown error => Thrown error
     end, log ++ [Sanitized bodyMarkup])
  /\ (forall formData, EncodesSanitized lib (snd (POST lib formData []))).
Proof.
  intro H. split.
  - rewrite (@buildHtmlDocument_run lib bodyMarkup _ _ options log H).
    destruct (sanitize lib bodyMarkup); [|reflexivity].
    now rewrite wrapDocument_split, wrapPreview_split.
  - apply POST_encodes_sanitized.
Qed.

Lemma assembler_embeds_sanitized_witness :
  PRESET_CONFIG (lit "modern") = Some modern
  /\ snd (buildHtmlDocument Standin.library (lit "<p>Hello</p>") (lit "modern")
            (readOptions []) [])
     = [Sanitized (lit "<p>Hello</p>")].
Proof.
  split; [reflexivity|].
  exact (f_equal snd
           (proj1 (@assembler_embeds_sanitized Standin.library (lit "<p>Hello</p>")
                     (lit "modern") modern (readOptions []) [] eq_refl))).
Defined.

(** ** The handler (C4, C5) *)

(** A library call threw: the answer is the 500 and no run of the stages
    returns. *)
Ltac stage_fails :=
  eexists _, _; split; [reflexivity|]; right; split; [reflexivity|]; split;
  [eexists _, _; reflexivity|];
  intros (base64 & preview & buffer' & rawHtml' & doc' & config' & clean'
          & blob' & bytes' & H1 & H2 & H3 & H4 & H5 & H6 & H7 & _);
  congruence.

(** Once the form is there, the handler always answers, in one of three ways.
    Without a file in the [file] field it answers 400 with the upload message,
    and no library has been called.  With a file it answers 200 with the
    encoded document, the preview and the preset, all three, when every
    library call returns; and when a call throws it answers 500 with the one
    fixed message, after logging the error. *)
Theorem POST_responses (lib : Library) (formData : FormData) :
  exists response log,
    POST lib formData [] = (Returned response, log)
    /\ match get formData (lit "file") with
       | Some (EntryFile file) =>
           let chosenPreset := choosePreset formData in
           let options := readOptions formData in
           (exists base64 preview,
               response = json [(lit "base64", base64);
                                (lit "previewHtml", preview);
                                (lit "appliedPreset", chosenPreset)] 200
               /\ StagesReturn lib file chosenPreset options base64 preview)
           \/ (response = json [(lit "error", formatError)] 500
               /\ (exists log' error, log = log' ++ [ErrorLogged error])
               /\ ~ (exists base64 preview,
                        StagesReturn lib file chosenPreset options base64 preview))
       | _ => response = json [(lit "error", uploadError)] 400 /\ log = []
       end.
Proof.
  unfold POST.
  destruct (get formData (lit "file")) as [[s|file]|];
    try (eexists _, _; split; [reflexivity|]; split; reflexivity).
  destruct (choosePreset_defined formData) as [config Hc].
  unfold try_catch. rewrite (@formatFile_run lib file _ _ (readOptions formData) Hc).
  destruct (arrayBuffer lib file) as [buffer|e] eqn:E1; [|stage_fails].
  destruct (convertToHtml lib buffer) as [rawHtml|e] eqn:E2; [|stage_fails].
  destruct (load lib (rootMarkup rawHtml)) as [doc|e] eqn:E3; [|stage_fails].
  cbv zeta.
  destruct (sanitize lib _) as [clean|e] eqn:E4; [|stage_fails].
  destruct (asBlob lib _) as [blob|e] eqn:E5; [|stage_fails].
  destruct (blobArrayBuffer lib blob) as [bytes|e] eqn:E6; [|stage_fails].
  eexists _, _; split; [reflexivity|]. left. eexists _, _. split; [reflexivity|].
  exists buffer, rawHtml, doc, config, clean, blob, bytes. repeat split; assumption.
Qed.

(** C4: not every request is answered.  The handler awaits
    [request.formData()] before it enters its [try] block.  On a request whose
    body is not form data that call rejects, and the handler ends with the
    same error: it gives no response, neither the 400 of a missing file nor
    the 500 of a failed conversion, it calls no library and logs nothing.  On
    a request that does carry a form it goes on as [POST] does on that
    form. *)
Theorem request_without_form_is_not_answered (lib : Library) (error : jsstring) :
  let request := {| formData := Thrown error |} in
  POST_request lib request [] = (Thrown error, [])
  /\ (forall response log, POST_request lib request [] <> (Returned response, log))
  /\ (forall form log,
         POST_request lib {| formData := Returned form |} log = POST lib form log).
Proof.
  cbv zeta. split; [reflexivity|]. split; [|reflexivity].
  intros response log. cbn. discriminate.
Qed.

(** The preset falls back to [classic] for every key that [PRESET_CONFIG]
    does not answer. *)
Lemma choosePreset_fallback (formData : FormData) :
  PRESET_CONFIG (presetKey formData) = None ->
  choosePreset formData = lit "classic".
Proof. intro H. unfold choosePreset. now rewrite H. Qed.

Lemma choosePreset_absent (formData : FormData) :
  get formData (lit "preset") = None -> choosePreset formData = lit "classic".
Proof. intro H. unfold choosePreset, presetKey. now rewrite H. Qed.

(** C5: the fallback tests [PRESET_CONFIG[presetId]] for truth, and the table
    is an object that inherits from [Object.prototype].  A preset named after
    an inherited property, such as [constructor], is not one of the three
    presets and yet passes the test: the handler keeps it, styles the document
    from an object without any preset field and answers 200 with
    [appliedPreset] set to [constructor], not [classic]. *)
Theorem inherited_key_is_not_classic :
  let formData := [(lit "file", EntryFile (upload (lit "<p>Hello</p>")));
                   (lit "preset", EntryString (lit "constructor"))] in
  choosePreset formData = lit "constructor"
  /\ PRESET_CONFIG (lit "constructor") = Some inherited
  /\ exists base64 preview,
       fst (POST Standin.library formData [])
       = Returned (json [(lit "base64", base64);
                         (lit "previewHtml", preview);
                         (lit "appliedPreset", lit "constructor")] 200).
Proof.
  repeat split. eexists _, _. vm_compute. reflexivity.
Qed.

(** ** Trees *)

Lemma node_induction (P : node -> Prop) :
  (forall data, P (Text data)) ->
  (forall data, P (Comment data)) ->
  (forall name attribs children,
      Forall P children -> P (Element name attribs children)) ->
  forall n, P n.
Proof.
  intros HText HComment HElement. fix IH 1.
  intros [data|data|name attribs children].
  - apply HText.
  - apply HComment.
  - apply HElement. induction children as [|x rest IHrest].
    + constructor.
    + constructor; [apply IH | exact IHrest].
Qed.

Lemma removeEmptyP_app (visit : node -> node) (l1 l2 : list node) :
  removeEmptyP visit (l1 ++ l2) = removeEmptyP visit l1 ++ removeEmptyP visit l2.
Proof.
  induction l1 as [|n l1 IH]; [reflexivity|].
  cbn [app removeEmptyP]. destruct (matchesEmptyP n); [exact IH|].
  cbn [app]. now rewrite IH.
Qed.

Lemma sweep_app (l1 l2 : list node) : sweep (l1 ++ l2) = sweep l1 ++ sweep l2.
Proof. apply removeEmptyP_app. Qed.

Lemma sweep_empty_paragraph (l1 l2 : list node) (n : node) :
  matchesEmptyP n = true -> sweep (l1 ++ n :: l2) = sweep l1 ++ sweep l2.
Proof.
  intro H. rewrite sweep_app. f_equal. unfold sweep. cbn [removeEmptyP].
  now rewrite H.
Qed.

Lemma matchesEmptyP_isP (n : node) :
  matchesEmptyP n = true ->
  exists name attribs children, n = Element name attribs children /\ isP name = true.
Proof.
  destruct n as [data|data|name attribs children]; try discriminate.
  cbn. intro H. apply andb_true_iff in H as [H _]. eauto.
Qed.

Section TransformFacts.

Variable render : list node -> jsstring.
Variable parse : jsstring -> list node.

Let tidy := tidyNode render parse.
Let loop := eachP render parse tidy.
Let pass := passNode render parse.

(** The loop, one sibling at a time. *)
Lemma loop_paragraph (before rest : list node) (name : jsstring)
    (attribs : list (jsstring * jsstring)) (children : list node) :
  isP name = true ->
  loop before (Element name attribs children :: rest)
  = match tidyParagraph render parse before name attribs children with
    | Some el => loop (el :: before) rest
    | None => loop before rest
    end.
Proof. intro H. unfold loop. cbn [eachP]. now rewrite H. Qed.

Lemma loop_element (before rest : list node) (name : jsstring)
    (attribs : list (jsstring * jsstring)) (children : list node) :
  isP name = false ->
  loop before (Element name attribs children :: rest)
  = loop (tidy (Element name attribs children) :: before) rest.
Proof. intro H. unfold loop. cbn [eachP]. now rewrite H. Qed.

Lemma loop_keeps (rest before : list node) :
  exists tail, loop before rest = rev before ++ tail.
Proof.
  revert before. induction rest as [|n rest IH]; intros before.
  - exists []. unfold loop. cbn. now rewrite app_nil_r.
  - assert (Hcons : forall x, exists tail, loop (x :: before) rest = rev before ++ tail).
    { intro x. destruct (IH (x :: before)) as [tail Ht].
      exists (x :: tail). rewrite Ht. cbn [rev]. now rewrite <- app_assoc. }
    destruct n as [data|data|name attribs children].
    + apply Hcons.
    + apply Hcons.
    + destruct (isP name) eqn:E.
      * rewrite loop_paragraph by exact E.
        destruct (tidyParagraph render parse before name attribs children);
          [apply Hcons | apply IH].
      * rewrite loop_element by exact E. apply Hcons.
Qed.

Hypothesis parse_empty : parse [] = [].

Lemma sweep_loop (doc : list node) :
  Forall (passes render parse) doc ->
  forall before, sweep (loop before doc) = sweep (rev before) ++ flat_map pass doc.
Proof.
  induction 1 as [|n rest Hn _ IH]; intros before.
  - unfold loop. cbn. now rewrite app_nil_r.
  - assert (Hcons : forall x, sweep [x] = pass n ->
              sweep (loop (x :: before) rest)
              = sweep (rev before) ++ flat_map pass (n :: rest)).
    { intros x Hx. rewrite IH. cbn [rev flat_map].
      now rewrite sweep_app, <- app_assoc, Hx. }
    destruct n as [data|data|name attribs children].
    + now apply Hcons.
    + now apply Hcons.
    + destruct (isP name) eqn:E.
      * rewrite loop_paragraph by exact E. unfold tidyParagraph.
        assert (Hp : pass (Element name attribs children)
                     = if Nat.eqb (List.length (normalizeMarkup (render children))) 0
                       then []
                       else sweep [Element name attribs
                                     (parse (normalizeMarkup (render children)))]).
        { unfold pass, sweep. cbn [passNode removeEmptyP]. rewrite E. cbv zeta.
          destruct (Nat.eqb _ 0); [reflexivity|].
          now destruct (matchesEmptyP _). }
        cbv zeta.
        destruct (Nat.eqb (List.length (normalizeMarkup (render children))) 0).
        -- destruct (previousBlank before).
           ++ rewrite IH. cbn [flat_map]. now rewrite Hp.
           ++ apply Hcons. rewrite Hp. unfold sweep, JS.empty.
              cbn [removeEmptyP matchesEmptyP].
              now rewrite parse_empty, E.
        -- apply Hcons. now rewrite Hp.
      * rewrite loop_element by exact E. apply Hcons.
        destruct (Hn E) as [Hm Hp]. fold tidy in Hm, Hp. fold pass in Hp.
        unfold sweep. cbn [removeEmptyP]. now rewrite Hm.
Qed.

Lemma passes_all (n : node) : passes render parse n.
Proof.
  induction n as [data|data|name attribs children IH] using node_induction;
    try exact I.
  intro E. unfold tidy, pass. cbn [tidyNode passNode matchesEmptyP sweepNode].
  rewrite E. split; [reflexivity|]. do 2 f_equal.
  pose proof (sweep_loop IH []) as H. cbn [rev] in H. exact H.
Qed.

(** One pass, node by node. *)
Lemma normalizeSpacing_pass (doc : Document) :
  normalizeSpacing render parse doc = flat_map pass doc.
Proof.
  unfold normalizeSpacing, tidyParagraphs.
  assert (H : Forall (passes render parse) doc)
    by (apply Forall_forall; intros; apply passes_all).
  exact (sweep_loop H []).
Qed.

End TransformFacts.
(** ** What the pass leaves alone (C10) *)

Section Frame.

Variable render : list node -> jsstring.
Variable parse : jsstring -> list node.

Let tidy := tidyNode render parse.
Let loop := eachP render parse tidy.

Lemma outsideP_sweepNode (n : node) : outsideP (sweepNode n) = outsideP n.
Proof.
  induction n as [data|data|name attribs children IH] using node_induction;
    try reflexivity.
  cbn [sweepNode outsideP]. destruct (isP name); [reflexivity|]. do 2 f_equal.
  induction IH as [|x rest Hx _ IHrest]; [reflexivity|].
  cbn [removeEmptyP flat_map]. destruct (matchesEmptyP x) eqn:E.
  - apply matchesEmptyP_isP in E as (nm & a & k & -> & Hp).
    cbn [outsideP]. now rewrite Hp.
  - cbn [flat_map]. now rewrite Hx, IHrest.
Qed.

Lemma outsideP_sweep (doc : list node) :
  flat_map outsideP (sweep doc) = flat_map outsideP doc.
Proof.
  induction doc as [|x rest IH]; [reflexivity|].
  unfold sweep in *. cbn [removeEmptyP flat_map].
  destruct (matchesEmptyP x) eqn:E.
  - apply matchesEmptyP_isP in E as (nm & a & k & -> & Hp).
    cbn [outsideP]. now rewrite Hp.
  - cbn [flat_map]. now rewrite outsideP_sweepNode, IH.
Qed.

Lemma outsideP_loop (doc : list node) :
  Forall (fun n => outsideP (tidy n) = outsideP n) doc ->
  forall before,
    flat_map outsideP (loop before doc)
    = flat_map outsideP (rev before) ++ flat_map outsideP doc.
Proof.
  induction 1 as [|n rest Hn _ IH]; intros before.
  - unfold loop. cbn. now rewrite app_nil_r.
  - assert (Hcons : forall x, outsideP x = outsideP n ->
              flat_map outsideP (loop (x :: before) rest)
              = flat_map outsideP (rev before) ++ flat_map outsideP (n :: rest)).
    { intros x Hx. rewrite IH. cbn [rev flat_map].
      rewrite flat_map_app. cbn [flat_map].
      now rewrite app_nil_r, <- app_assoc, Hx. }
    destruct n as [data|data|name attribs children].
    + now apply Hcons.
    + now apply Hcons.
    + destruct (isP name) eqn:E.
      * unfold loop. rewrite loop_paragraph by exact E. unfold tidyParagraph.
        cbv zeta.
        destruct (Nat.eqb _ 0); [destruct (previousBlank before)|].
        -- fold loop. rewrite IH. cbn [flat_map outsideP]. now rewrite E.
        -- apply Hcons. cbn [outsideP]. now rewrite E.
        -- apply Hcons. cbn [outsideP]. now rewrite E.
      * unfold loop. rewrite loop_element by exact E. apply Hcons. exact Hn.
Qed.

Lemma outsideP_tidy (n : node) : outsideP (tidy n) = outsideP n.
Proof.
  induction n as [data|data|name attribs children IH] using node_induction;
    try reflexivity.
  unfold tidy. cbn [tidyNode outsideP]. destruct (isP name); [reflexivity|].
  do 2 f_equal. pose proof (outsideP_loop IH []) as H. exact H.
Qed.

Lemma outsideP_normalizeSpacing (doc : Document) :
  flat_map outsideP (normalizeSpacing render parse doc) = flat_map outsideP doc.
Proof.
  unfold normalizeSpacing, tidyParagraphs. rewrite outsideP_sweep.
  assert (H : Forall (fun n => outsideP (tidy n) = outsideP n) doc)
    by (apply Forall_forall; intros; apply outsideP_tidy).
  exact (outsideP_loop H []).
Qed.

(** A node without paragraphs is left as it is by the loop and by the
    sweep. *)
Lemma loop_without_paragraph (doc : list node) :
  Forall (fun n => hasP n = false -> tidy n = n) doc ->
  existsb hasP doc = false ->
  forall before, loop before doc = rev before ++ doc.
Proof.
  induction 1 as [|n rest Hn _ IH]; intros Hdoc before.
  - unfold loop. cbn. now rewrite app_nil_r.
  - cbn [existsb] in Hdoc. apply orb_false_iff in Hdoc as [Hx Hrest].
    assert (Hcons : loop (n :: before) rest = rev before ++ n :: rest).
    { rewrite IH by exact Hrest. cbn [rev]. now rewrite <- app_assoc. }
    destruct n as [data|data|name attribs children]; try exact Hcons.
    cbn [hasP] in Hx. apply orb_false_iff in Hx as [Hname Hkids].
    unfold loop. rewrite loop_element by exact Hname. fold tidy. fold loop.
    rewrite Hn; [exact Hcons|]. cbn [hasP]. now rewrite Hname, Hkids.
Qed.

Lemma tidy_without_paragraph (n : node) : hasP n = false -> tidy n = n.
Proof.
  induction n as [data|data|name attribs children IH] using node_induction;
    try reflexivity.
  cbn [hasP]. intro H. apply orb_false_iff in H as [Hname Hkids].
  unfold tidy. cbn [tidyNode]. f_equal.
  exact (loop_without_paragraph IH Hkids []).
Qed.

Lemma sweepNode_without_paragraph (n : node) : hasP n = false -> sweepNode n = n.
Proof.
  induction n as [data|data|name attribs children IH] using node_induction;
    try reflexivity.
  cbn [hasP]. intro H. apply orb_false_iff in H as [Hname Hkids].
  cbn [sweepNode]. f_equal. clear Hname.
  induction IH as [|x rest Hx _ IHrest]; [reflexivity|].
  cbn [existsb] in Hkids. apply orb_false_iff in Hkids as [H1 H2].
  cbn [removeEmptyP]. destruct (matchesEmptyP x) eqn:E.
  - apply matchesEmptyP_isP in E as (nm & a & k & -> & Hp).
    cbn [hasP] in H1. now rewrite Hp in H1.
  - now rewrite Hx, IHrest.
Qed.

Lemma loop_app (l1 rest : list node) :
  forall before, exists before', loop before (l1 ++ rest) = loop before' rest.
Proof.
  induction l1 as [|n l1 IH]; intros before; [now exists before|].
  cbn [app]. destruct n as [data|data|name attribs children].
  - apply (IH (Text data :: before)).
  - apply (IH (Comment data :: before)).
  - destruct (isP name) eqn:E.
    + unfold loop. rewrite loop_paragraph by exact E.
      destruct (tidyParagraph render parse before name attribs children); apply IH.
    + unfold loop. rewrite loop_element by exact E. apply IH.
Qed.

Lemma normalizeSpacing_keeps (l1 l2 : list node) (e : node) :
  hasP e = false ->
  exists l1' l2', normalizeSpacing render parse (l1 ++ e :: l2) = l1' ++ e :: l2'.
Proof.
  intro He. unfold normalizeSpacing, tidyParagraphs. fold tidy. fold loop.
  destruct (loop_app l1 (e :: l2) []) as [before Hb]. rewrite Hb.
  assert (Hstep : loop before (e :: l2) = loop (e :: before) l2).
  { destruct e as [data|data|name attribs children]; try reflexivity.
    pose proof He as He'. cbn [hasP] in He'.
    apply orb_false_iff in He' as [Hname _].
    unfold loop. rewrite loop_element by exact Hname. fold tidy.
    now rewrite tidy_without_paragraph. }
  rewrite Hstep. destruct (loop_keeps render parse l2 (e :: before)) as [tail Ht].
  fold tidy in Ht. fold loop in Ht. rewrite Ht. cbn [rev].
  rewrite <- app_assoc. cbn [app]. rewrite sweep_app.
  exists (sweep (rev before)), (sweep tail). f_equal.
  unfold sweep. cbn [removeEmptyP].
  destruct (matchesEmptyP e) eqn:E.
  - apply matchesEmptyP_isP in E as (nm & a & k & -> & Hp).
    cbn [hasP] in He. now rewrite Hp in He.
  - now rewrite sweepNode_without_paragraph.
Qed.

Lemma normalizeSpacing_element (l1 l2 : list node) (name : jsstring)
    (attribs : list (jsstring * jsstring)) (children : list node) :
  isP name = false ->
  exists l1' l2',
    normalizeSpacing render parse (l1 ++ Element name attribs children :: l2)
    = l1' ++ Element name attribs (normalizeSpacing render parse children) :: l2'.
Proof.
  intro Hname. unfold normalizeSpacing, tidyParagraphs. fold tidy. fold loop.
  destruct (loop_app l1 (Element name attribs children :: l2) []) as [before Hb].
  rewrite Hb. unfold loop at 1. rewrite loop_element by exact Hname.
  fold tidy. fold loop.
  destruct (loop_keeps render parse l2 (tidy (Element name attribs children) :: before))
    as [tail Ht].
  fold tidy in Ht. fold loop in Ht. rewrite Ht. cbn [rev].
  rewrite <- app_assoc. cbn [app]. rewrite sweep_app.
  exists (sweep (rev before)), (sweep tail). f_equal.
  unfold sweep, tidy. cbn [tidyNode removeEmptyP matchesEmptyP].
  now rewrite Hname.
Qed.

Lemma normalizeSpacing_outside (doc : Document) (e : node) :
  hasP e = false -> Outside e doc -> Outside e (normalizeSpacing render parse doc).
Proof.
  intros He H. induction H as [l1 l2|l1 l2 name attribs children Hname _ IH].
  - destruct (@normalizeSpacing_keeps l1 l2 e He) as (l1' & l2' & ->).
    apply outside_here.
  - destruct (@normalizeSpacing_element l1 l2 name attribs children Hname)
      as (l1' & l2' & ->).
    now apply outside_below.
Qed.

End Frame.

(** C10, as stated, fails: a table cell is not a paragraph, and the pass
    rewrites the text of the paragraph inside it, and with it the text of the
    cell. *)
Lemma table_cell_is_rewritten :
  let cell := td [para [Text (lit "Total :  42")]] in
  let doc := normalizeSpacing Reference.render Reference.parse [cell] in
  doc = [td [para [Text (lit "Total: 42")]]]
  /\ doc <> [cell]
  /\ text doc <> text [cell].
Proof. vm_compute. repeat split; discriminate. Qed.

(** C10, amended: the pass changes paragraphs and nothing else.  The tree
    with its paragraphs cut out is the same before and after, and an element
    that is not a paragraph, holds none and lies in none stays where it is and
    as it is, whatever white space its text has. *)
Theorem normalizeSpacing_outside_paragraphs (render : list node -> jsstring)
    (parse : jsstring -> list node) (doc : Document) (e : node) :
  hasP e = false ->
  Outside e doc ->
  flat_map outsideP (normalizeSpacing render parse doc) = flat_map outsideP doc
  /\ Outside e (normalizeSpacing render parse doc).
Proof.
  intros He Hdoc. split.
  - apply outsideP_normalizeSpacing.
  - now apply normalizeSpacing_outside.
Qed.

Lemma normalizeSpacing_outside_paragraphs_witness :
  let item := Element (lit "li") [] [Text (lit "one ,  two")] in
  let doc := [para [Text (lit "a  b")]; Element (lit "ul") [] [item];
              h1 [Text (lit "A  heading ,  spaced")]] in
  hasP item = false
  /\ Outside item doc
  /\ Outside item (normalizeSpacing Reference.render Reference.parse doc).
Proof.
  assert (H : Outside (Element (lit "li") [] [Text (lit "one ,  two")])
                [para [Text (lit "a  b")];
                 Element (lit "ul") [] [Element (lit "li") [] [Text (lit "one ,  two")]];
                 h1 [Text (lit "A  heading ,  spaced")]]).
  { apply (@outside_below _ [para [Text (lit "a  b")]]
             [h1 [Text (lit "A  heading ,  spaced")]] (lit "ul") [] _);
      [reflexivity|].
    apply (@outside_here _ [] []). }
  split; [reflexivity|]. split; [exact H|].
  exact (proj2 (@normalizeSpacing_outside_paragraphs Reference.render Reference.parse
                  _ (Element (lit "li") [] [Text (lit "one ,  two")]) eq_refl H)).
Defined.
(** ** Empty paragraphs (C7) *)

Lemma noElement_app (l1 l2 : list node) :
  noElement (l1 ++ l2) = noElement l1 && noElement l2.
Proof. apply forallb_app. Qed.

Lemma noElement_rev (nodes : list node) : noElement (rev nodes) = noElement nodes.
Proof.
  induction nodes as [|n nodes IH]; [reflexivity|].
  cbn [rev]. rewrite noElement_app, IH. cbn. rewrite andb_true_r. apply andb_comm.
Qed.

(** [prev] looks past text and comments. *)
Lemma prevP_gap (gap rest : list node) :
  noElement gap = true -> prevP (gap ++ rest) = prevP rest.
Proof.
  induction gap as [|n gap IH]; [reflexivity|].
  destruct n as [data|data|name attribs children]; cbn; try exact IH.
  discriminate.
Qed.

Lemma prevP_earlier (pre gap : list node) (n : node) :
  noElement gap = true -> prevP (rev (pre ++ n :: gap)) = prevP (n :: rev pre).
Proof.
  intro H. rewrite rev_app_distr. cbn [rev]. rewrite <- app_assoc. cbn [app].
  apply prevP_gap. now rewrite noElement_rev.
Qed.

Lemma previousBlank_absent (earlier : list node) :
  NoParagraphBefore earlier -> previousBlank (rev earlier) = true.
Proof.
  intros [H|(pre & name & attribs & children & gap & -> & Hname & Hgap)];
    unfold previousBlank.
  - rewrite <- (app_nil_r (rev earlier)), prevP_gap by now rewrite noElement_rev.
    reflexivity.
  - rewrite prevP_earlier by exact Hgap. cbn [prevP]. now rewrite Hname.
Qed.

Lemma previousBlank_paragraph (earlier children : list node) :
  ParagraphBefore earlier children ->
  previousBlank (rev earlier) = Nat.eqb (List.length (trim (text children))) 0%nat.
Proof.
  intros (pre & name & attribs & gap & -> & Hname & Hgap). unfold previousBlank.
  rewrite prevP_earlier by exact Hgap. cbn [prevP]. rewrite Hname. reflexivity.
Qed.

(** One of the two holds of any list of siblings. *)
Lemma paragraph_before_cases (earlier : list node) :
  NoParagraphBefore earlier \/ exists children, ParagraphBefore earlier children.
Proof.
  induction earlier as [|n earlier IH] using rev_ind; [now left; left|].
  destruct n as [data|data|name attribs children].
  - destruct IH as [[H|(pre & name & attribs & children & gap & -> & Hn & Hg)]
                   |(children & pre & name & attribs & gap & -> & Hn & Hg)].
    + left; left. rewrite noElement_app, H. reflexivity.
    + left; right. exists pre, name, attribs, children, (gap ++ [Text data]).
      rewrite <- app_assoc. cbn [app]. repeat split; [exact Hn|].
      rewrite noElement_app, Hg. reflexivity.
    + right. exists children, pre, name, attribs, (gap ++ [Text data]).
      rewrite <- app_assoc. cbn [app]. repeat split; [exact Hn|].
      rewrite noElement_app, Hg. reflexivity.
  - destruct IH as [[H|(pre & name & attribs & children & gap & -> & Hn & Hg)]
                   |(children & pre & name & attribs & gap & -> & Hn & Hg)].
    + left; left. rewrite noElement_app, H. reflexivity.
    + left; right. exists pre, name, attribs, children, (gap ++ [Comment data]).
      rewrite <- app_assoc. cbn [app]. repeat split; [exact Hn|].
      rewrite noElement_app, Hg. reflexivity.
    + right. exists children, pre, name, attribs, (gap ++ [Comment data]).
      rewrite <- app_assoc. cbn [app]. repeat split; [exact Hn|].
      rewrite noElement_app, Hg. reflexivity.
  - destruct (isP name) eqn:E.
    + right. exists children, earlier, name, attribs, []. now repeat split.
    + left; right. exists earlier, name, attribs, children, []. now repeat split.
Qed.

(** What stays after the sweep was there before it, and was not an empty
    paragraph. *)
Lemma sweep_in (doc : list node) (m : node) :
  In m (sweep doc) ->
  exists n, In n doc /\ matchesEmptyP n = false /\ m = sweepNode n.
Proof.
  induction doc as [|x doc IH]; [intros []|].
  unfold sweep. cbn [removeEmptyP]. destruct (matchesEmptyP x) eqn:E.
  - intro H. destruct (IH H) as (n & Hin & Hn). exists n. split; [now right|exact Hn].
  - intros [<-|H].
    + exists x. repeat split; [now left|exact E].
    + destruct (IH H) as (n & Hin & Hn). exists n. split; [now right|exact Hn].
Qed.

Lemma sweep_anywhere (swept : list node) (m : node) :
  Anywhere m swept ->
  forall doc, swept = sweep doc ->
  exists n, Anywhere n doc /\ matchesEmptyP n = false /\ m = sweepNode n.
Proof.
  induction 1 as [l1 l2|l1 l2 name attribs children _ IH]; intros doc Hdoc.
  - destruct (@sweep_in doc m) as (n & Hin & Hn).
    { rewrite <- Hdoc. apply in_elt. }
    exists n. split; [|exact Hn].
    apply in_split in Hin as (d1 & d2 & ->). constructor.
  - destruct (@sweep_in doc (Element name attribs children)) as (x & Hin & Hx & Heq).
    { rewrite <- Hdoc. apply in_elt. }
    destruct x as [data|data|name' attribs' children']; try discriminate.
    cbn [sweepNode] in Heq. injection Heq as -> -> Hkids.
    destruct (IH children' Hkids) as (n & Hn & Hrest).
    exists n. split; [|exact Hrest].
    apply in_split in Hin as (d1 & d2 & ->). now constructor.
Qed.

Section EmptyParagraphs.

Variable render : list node -> jsstring.
Variable parse : jsstring -> list node.

Let tidy := tidyNode render parse.
Let loop := eachP render parse tidy.

(** The loop on [l1 ++ rest] goes on, after [l1], from the siblings that it
    has made of [l1]. *)
Lemma loop_resume (l1 rest : list node) :
  forall before, loop before (l1 ++ rest) = loop (rev (loop before l1)) rest.
Proof.
  induction l1 as [|n l1 IH]; intros before.
  - change (loop before []) with (rev before). now rewrite rev_involutive.
  - cbn [app]. destruct n as [data|data|name attribs children].
    + exact (IH (Text data :: before)).
    + exact (IH (Comment data :: before)).
    + destruct (isP name) eqn:E.
      * unfold loop, tidy. rewrite !loop_paragraph by exact E.
        destruct (tidyParagraph render parse before name attribs children);
          apply IH.
      * unfold loop, tidy. rewrite !loop_element by exact E. apply IH.
Qed.

(** The loop at a paragraph whose markup normalises to nothing. *)
Lemma loop_blank_paragraph (l1 l2 : list node)
    (attribs : list (jsstring * jsstring)) (children : list node) :
  parse [] = [] ->
  normalizeMarkup (render children) = [] ->
  let earlier := tidyParagraphs render parse l1 in
  tidyParagraphs render parse (l1 ++ Element (lit "p") attribs children :: l2)
  = if previousBlank (rev earlier) then loop (rev earlier) l2
    else loop (Element (lit "p") attribs [] :: rev earlier) l2.
Proof.
  intros Hparse Hnorm earlier. unfold tidyParagraphs. fold tidy. fold loop.
  rewrite loop_resume. unfold loop, tidy.
  change (eachP render parse (tidyNode render parse) [] l1) with earlier.
  rewrite loop_paragraph; [|reflexivity].
  unfold tidyParagraph. rewrite Hnorm. cbn [List.length Nat.eqb].
  unfold JS.empty. rewrite Hparse. now destruct (previousBlank (rev earlier)).
Qed.

(** The loop goes into an element that is not a paragraph and starts afresh on
    its children. *)
Lemma tidyParagraphs_element (l1 l2 : list node) (name : jsstring)
    (attribs : list (jsstring * jsstring)) (children : list node) :
  isP name = false ->
  exists l2',
    tidyParagraphs render parse (l1 ++ Element name attribs children :: l2)
    = tidyParagraphs render parse l1
      ++ Element name attribs (tidyParagraphs render parse children) :: l2'.
Proof.
  intro Hname. unfold tidyParagraphs. fold tidy. fold loop.
  rewrite loop_resume. unfold loop at 1, tidy. rewrite loop_element by exact Hname.
  destruct (loop_keeps render parse l2
              (tidyNode render parse (Element name attribs children)
               :: rev (loop [] l1))) as [tail Ht].
  rewrite Ht. exists tail. cbn [rev]. rewrite rev_involutive, <- app_assoc.
  reflexivity.
Qed.

Lemma Siblings_tidyParagraphs (nodes doc : list node) :
  Siblings nodes doc ->
  Siblings (tidyParagraphs render parse nodes) (tidyParagraphs render parse doc).
Proof.
  induction 1 as [|l1 l2 name attribs children Hname _ IH]; [constructor|].
  destruct (@tidyParagraphs_element l1 l2 name attribs children Hname) as [l2' ->].
  now constructor.
Qed.

Lemma Siblings_normalizeSpacing (nodes doc : list node) :
  Siblings nodes doc ->
  Siblings (normalizeSpacing render parse nodes) (normalizeSpacing render parse doc).
Proof.
  induction 1 as [|l1 l2 name attribs children Hname _ IH]; [constructor|].
  destruct (@normalizeSpacing_element render parse l1 l2 name attribs children Hname)
    as (l1' & l2' & ->).
  now constructor.
Qed.

End EmptyParagraphs.

(** The two ways of the loop, on a concrete list of siblings: the first blank
    paragraph follows a paragraph with text and is emptied, the second follows
    the emptied one and is taken out. *)
Example loop_on_blank_paragraphs :
  tidyParagraphs Reference.render Reference.parse
    [para [Text (lit "Kept.")]; para [Text (lit " ")]; para []]
  = [para [Text (lit "Kept.")]; para []].
Proof. reflexivity. Qed.

(** C7: take a paragraph whose markup normalises to nothing, among any
    siblings of the tree that do not lie in a paragraph, whatever their depth.
    When no paragraph precedes it among its siblings as the loop has left
    them, or the one that does has no text, the loop removes it: the loop's
    result is the one without that paragraph.  When the paragraph that
    precedes has text, the loop empties it and keeps it, in its place after
    the earlier siblings.  Either way the siblings stand in the loop's result
    as the loop makes them, and in the final tree they are what they would be
    without the paragraph; and the sweep that ends the pass leaves, at any
    depth, only nodes that were not empty paragraphs in the loop's result. *)
Theorem empty_paragraph_rule (render : list node -> jsstring)
    (parse : jsstring -> list node) (doc l1 l2 : list node)
    (attribs : list (jsstring * jsstring)) (children : list node) :
  parse [] = [] ->
  normalizeMarkup (render children) = [] ->
  let el := Element (lit "p") attribs children in
  let cleared := Element (lit "p") attribs [] in
  Siblings (l1 ++ el :: l2) doc ->
  let earlier := tidyParagraphs render parse l1 in
  (NoParagraphBefore earlier
   \/ (exists previous, ParagraphBefore earlier previous /\ trim (text previous) = []) ->
   tidyParagraphs render parse (l1 ++ el :: l2)
   = tidyParagraphs render parse (l1 ++ l2))
  /\ (forall previous,
         ParagraphBefore earlier previous -> trim (text previous) <> [] ->
         exists tail,
           tidyParagraphs render parse (l1 ++ el :: l2) = earlier ++ cleared :: tail)
  /\ Siblings (tidyParagraphs render parse (l1 ++ el :: l2))
       (tidyParagraphs render parse doc)
  /\ Siblings (normalizeSpacing render parse (l1 ++ l2))
       (normalizeSpacing render parse doc)
  /\ (forall m, Anywhere m (normalizeSpacing render parse doc) ->
        exists n, Anywhere n (tidyParagraphs render parse doc)
                  /\ matchesEmptyP n = false /\ m = sweepNode n).
Proof.
  intros Hparse Hnorm el cleared Hdoc earlier.
  pose proof (@loop_blank_paragraph render parse l1 l2 attribs children Hparse Hnorm)
    as Hstep.
  cbv zeta in Hstep. fold earlier el in Hstep.
  split; [|split; [|split; [|split]]].
  - intros Hblank. rewrite Hstep.
    assert (Hprev : previousBlank (rev earlier) = true).
    { destruct Hblank as [H|(previous & H & Htext)].
      - now apply previousBlank_absent.
      - rewrite (previousBlank_paragraph H), Htext. reflexivity. }
    rewrite Hprev. unfold tidyParagraphs. rewrite loop_resume. reflexivity.
  - intros previous H Htext. rewrite Hstep, (previousBlank_paragraph H).
    destruct (trim (text previous)) as [|c s]; [contradiction|].
    cbn [List.length Nat.eqb].
    destruct (loop_keeps render parse l2 (Element (lit "p") attribs [] :: rev earlier))
      as [tail ->].
    exists tail. unfold cleared. cbn [rev]. rewrite rev_involutive, <- app_assoc. reflexivity.
  - now apply Siblings_tidyParagraphs.
  - replace (normalizeSpacing render parse (l1 ++ l2))
      with (normalizeSpacing render parse (l1 ++ el :: l2)).
    + now apply Siblings_normalizeSpacing.
    + rewrite !normalizeSpacing_pass by exact Hparse.
      rewrite !flat_map_app. cbn [flat_map]. f_equal.
      unfold el. cbn [passNode]. rewrite Hnorm. reflexivity.
  - intros m Hm. now apply (@sweep_anywhere _ m Hm (tidyParagraphs render parse doc)).
Qed.

Lemma empty_paragraph_rule_witness :
  Reference.parse [] = []
  /\ normalizeMarkup (Reference.render [Text (lit "  ")]) = []
  /\ Siblings ([para [Text (lit "Kept.")]] ++ para [Text (lit "  ")]
                 :: [h1 [Text (lit "Next")]])
       (docxRoot [para [Text (lit "Kept.")]; para [Text (lit "  ")];
                  h1 [Text (lit "Next")]])
  /\ ParagraphBefore
       (tidyParagraphs Reference.render Reference.parse [para [Text (lit "Kept.")]])
       [Text (lit "Kept.")]
  /\ trim (text [Text (lit "Kept.")]) <> []
  /\ (exists tail,
         tidyParagraphs Reference.render Reference.parse
           ([para [Text (lit "Kept.")]] ++ para [Text (lit "  ")]
              :: [h1 [Text (lit "Next")]])
         = tidyParagraphs Reference.render Reference.parse [para [Text (lit "Kept.")]]
           ++ para [] :: tail)
  /\ Siblings
       (tidyParagraphs Reference.render Reference.parse
          ([para [Text (lit "Kept.")]] ++ para [Text (lit "  ")]
             :: [h1 [Text (lit "Next")]]))
       (tidyParagraphs Reference.render Reference.parse
          (docxRoot [para [Text (lit "Kept.")]; para [Text (lit "  ")];
                     h1 [Text (lit "Next")]]))
  /\ Siblings
       (normalizeSpacing Reference.render Reference.parse
          ([para [Text (lit "Kept.")]] ++ [h1 [Text (lit "Next")]]))
       (normalizeSpacing Reference.render Reference.parse
          (docxRoot [para [Text (lit "Kept.")]; para [Text (lit "  ")];
                     h1 [Text (lit "Next")]])).
Proof.
  assert (Hdoc : Siblings ([para [Text (lit "Kept.")]] ++ para [Text (lit "  ")]
                             :: [h1 [Text (lit "Next")]])
                   (docxRoot [para [Text (lit "Kept.")]; para [Text (lit "  ")];
                              h1 [Text (lit "Next")]])).
  { apply (@siblings_below _ [] [] (lit "html") []); [reflexivity|].
    apply (@siblings_below _ [] [] (lit "body") []); [reflexivity|].
    apply (@siblings_below _ [] [] (lit "div") [(lit "class", lit "docx-root")]);
      [reflexivity|].
    apply siblings_top. }
  assert (Hbefore : ParagraphBefore
                      (tidyParagraphs Reference.render Reference.parse
                         [para [Text (lit "Kept.")]])
                      [Text (lit "Kept.")]).
  { exists [], (lit "p"), [], []. repeat split. }
  assert (Htext : trim (text [Text (lit "Kept.")]) <> []).
  { vm_compute. discriminate. }
  pose proof (@empty_paragraph_rule Reference.render Reference.parse
                (docxRoot [para [Text (lit "Kept.")]; para [Text (lit "  ")];
                           h1 [Text (lit "Next")]])
                [para [Text (lit "Kept.")]] [h1 [Text (lit "Next")]]
                [] [Text (lit "  ")] eq_refl eq_refl Hdoc)
    as (_ & Hkept & Hloop & Hfinal & _).
  split; [reflexivity|]. split; [reflexivity|]. split; [exact Hdoc|].
  split; [exact Hbefore|]. split; [exact Htext|].
  split; [exact (Hkept _ Hbefore Htext)|]. split; [exact Hloop|exact Hfinal].
Defined.

(** The same document, run: below the root the blank paragraph that follows
    a paragraph with text is still there after the loop, emptied, and the
    sweep takes it out; a blank paragraph that follows a heading is taken out
    by the loop. *)
Example blank_paragraph_below_root :
  tidyParagraphs Reference.render Reference.parse
    (docxRoot [para [Text (lit "Kept.")]; para [Text (lit "  ")];
               h1 [Text (lit "Next")]])
  = docxRoot [para [Text (lit "Kept.")]; para []; h1 [Text (lit "Next")]]
  /\ normalizeSpacing Reference.render Reference.parse
       (docxRoot [para [Text (lit "Kept.")]; para [Text (lit "  ")];
                  h1 [Text (lit "Next")]])
     = docxRoot [para [Text (lit "Kept.")]; h1 [Text (lit "Next")]]
  /\ tidyParagraphs Reference.render Reference.parse
       (docxRoot [h1 [Text (lit "Title")]; para [Text (lit "  ")];
                  para [Text (lit "Body")]])
     = docxRoot [h1 [Text (lit "Title")]; para [Text (lit "Body")]].
Proof. repeat split. Qed.

(** ** Normalised markup *)

Lemma replaceLiteral_absent (pat rep s : jsstring) :
  occurs pat s = false -> replaceLiteral pat rep s = s.
Proof.
  unfold replaceLiteral. induction s as [|c r IH]; [reflexivity|].
  cbn [occurs replaceLiteral_from]. intro H.
  apply orb_false_iff in H as [Hstart Hrest].
  rewrite Hstart. now rewrite IH.
Qed.

Lemma noRuns_weaken (s : jsstring) (b : bool) :
  noRuns_from b s = true -> noRuns_from false s = true.
Proof.
  destruct s as [|c r]; [reflexivity|]. cbn [noRuns_from]. intro H.
  apply andb_true_iff in H as [_ H]. exact H.
Qed.

Lemma collapseRuns_noRuns (s : jsstring) :
  forall b, noRuns_from b (collapseRuns_from b s) = true.
Proof.
  induction s as [|c r IH]; intros b; [reflexivity|].
  cbn [collapseRuns_from]. destruct (isSpace c) eqn:Ec.
  - destruct b; [apply IH|].
    destruct r as [|c' r']; [reflexivity|].
    destruct (isSpace c') eqn:Ec'.
    + cbn [noRuns_from]. change (isSpace space) with true. apply (IH true).
    + cbn [noRuns_from]. rewrite Ec. cbn [andb negb].
      specialize (IH false). cbn [collapseRuns_from] in IH |- *.
      rewrite Ec' in IH |- *. cbn [noRuns_from] in IH |- *.
      rewrite Ec' in IH |- *. exact IH.
  - cbn [noRuns_from]. rewrite Ec, andb_false_r. cbn [negb andb]. apply IH.
Qed.

Lemma collapseRuns_fixed (s : jsstring) :
  noRuns_from false s = true -> collapseRuns s = s.
Proof.
  unfold collapseRuns. induction s as [|c r IH]; [reflexivity|].
  cbn [noRuns_from collapseRuns_from andb negb]. intro H.
  destruct (isSpace c) eqn:Ec.
  - destruct r as [|c' r']; [reflexivity|].
    pose proof H as H'. cbn [noRuns_from] in H'.
    apply andb_true_iff in H' as [Hc' _]. cbn [andb] in Hc'.
    apply negb_true_iff in Hc'. rewrite Hc'.
    f_equal. apply IH. now apply noRuns_weaken with (b := true).
  - f_equal. now apply IH.
Qed.

Lemma marksNext_strip (s : jsstring) :
  marksNext (stripBeforePunct s) = marksNext s.
Proof.
  induction s as [|c r IH]; [reflexivity|].
  cbn [stripBeforePunct marksNext]. destruct (isSpace c) eqn:Ec.
  - cbn [andb]. destruct (marksNext r) eqn:Em.
    + now rewrite IH.
    + cbn [marksNext]. now rewrite Ec, IH.
  - cbn [andb marksNext]. now rewrite Ec.
Qed.

Lemma strip_idempotent (s : jsstring) :
  stripBeforePunct (stripBeforePunct s) = stripBeforePunct s.
Proof.
  induction s as [|c r IH]; [reflexivity|].
  cbn [stripBeforePunct]. destruct (isSpace c && marksNext r) eqn:E; [exact IH|].
  cbn [stripBeforePunct]. now rewrite marksNext_strip, E, IH.
Qed.

Lemma strip_length (s : jsstring) :
  (List.length (stripBeforePunct s) <= List.length s)%nat.
Proof.
  induction s as [|c r IH]; [reflexivity|].
  cbn [stripBeforePunct]. destruct (isSpace c && marksNext r); cbn [List.length]; lia.
Qed.

Lemma strip_noRuns (s : jsstring) :
  forall b, noRuns_from b s = true -> noRuns_from b (stripBeforePunct s) = true.
Proof.
  induction s as [|c r IH]; intros b H; [reflexivity|].
  cbn [noRuns_from] in H. apply andb_true_iff in H as [Hb Hr].
  cbn [stripBeforePunct]. destruct (isSpace c && marksNext r) eqn:E.
  - apply andb_true_iff in E as [Ec _]. rewrite Ec in Hb, Hr.
    destruct b; [discriminate|]. apply IH. now apply noRuns_weaken with (b := true).
  - cbn [noRuns_from]. rewrite Hb. now apply IH.
Qed.

(** Fixed points of the third step, in suffixes and prefixes. *)
Lemma strip_fixed_cons (c : code_unit) (r : jsstring) :
  stripBeforePunct (c :: r) = c :: r ->
  isSpace c && marksNext r = false /\ stripBeforePunct r = r.
Proof.
  cbn [stripBeforePunct]. destruct (isSpace c && marksNext r).
  - intro H. pose proof (strip_length r) as Hl. rewrite H in Hl.
    cbn [List.length] in Hl. lia.
  - intros [= H]. now split.
Qed.

Lemma strip_fixed_suffix (w t : jsstring) :
  stripBeforePunct (w ++ t) = w ++ t -> stripBeforePunct t = t.
Proof.
  induction w as [|c w IH]; [trivial|]. cbn [app]. intro H.
  apply strip_fixed_cons in H as [_ H]. now apply IH.
Qed.

Lemma marksNext_app (r w : jsstring) :
  marksNext r = true -> marksNext (r ++ w) = true.
Proof.
  induction r as [|c r IH]; [discriminate|].
  cbn [app marksNext]. destruct (isSpace c); [exact IH|trivial].
Qed.

Lemma strip_fixed_prefix (u w : jsstring) :
  stripBeforePunct (u ++ w) = u ++ w -> stripBeforePunct u = u.
Proof.
  induction u as [|c u IH]; [reflexivity|]. cbn [app]. intro H.
  apply strip_fixed_cons in H as [Hc H]. cbn [stripBeforePunct].
  destruct (isSpace c && marksNext u) eqn:E.
  - apply andb_true_iff in E as [Ec Em].
    rewrite Ec, (@marksNext_app u w Em) in Hc. discriminate.
  - f_equal. now apply IH.
Qed.

Lemma noRuns_suffix (w t : jsstring) :
  forall b, noRuns_from b (w ++ t) = true -> noRuns_from false t = true.
Proof.
  induction w as [|c w IH]; intros b H.
  - now apply noRuns_weaken with (b := b).
  - cbn [app noRuns_from] in H. apply andb_true_iff in H as [_ H].
    now apply IH with (b := isSpace c).
Qed.

Lemma noRuns_prefix (u w : jsstring) :
  forall b, noRuns_from b (u ++ w) = true -> noRuns_from b u = true.
Proof.
  induction u as [|c u IH]; intros b H; [reflexivity|].
  cbn [app noRuns_from] in H |- *. apply andb_true_iff in H as [Hb H].
  rewrite Hb. now apply IH.
Qed.

Lemma trimStart_suffix (s : jsstring) : exists w, s = w ++ trimStart s.
Proof.
  induction s as [|c r [w IH]]; [now exists []|].
  cbn [trimStart]. destruct (isSpace c).
  - exists (c :: w). cbn [app]. now f_equal.
  - now exists [].
Qed.

Lemma trimEnd_prefix (s : jsstring) : exists w, s = trimEnd s ++ w.
Proof.
  unfold trimEnd. destruct (trimStart_suffix (rev s)) as [w Hw].
  exists (rev w). rewrite <- rev_app_distr, <- Hw. now rewrite rev_involutive.
Qed.

Lemma trimStart_startsClean (s : jsstring) : startsClean (trimStart s) = true.
Proof.
  induction s as [|c r IH]; [reflexivity|].
  cbn [trimStart]. destruct (isSpace c) eqn:E; [exact IH|].
  cbn [startsClean]. now rewrite E.
Qed.

Lemma trimStart_fixed (s : jsstring) : startsClean s = true -> trimStart s = s.
Proof.
  destruct s as [|c r]; [reflexivity|]. cbn [startsClean trimStart].
  intro H. apply negb_true_iff in H. now rewrite H.
Qed.

Lemma trim_idempotent (s : jsstring) : trim (trim s) = trim s.
Proof.
  unfold trim.
  assert (Hclean : startsClean (trimEnd (trimStart s)) = true).
  { pose proof (trimStart_startsClean s) as Hs.
    destruct (trimEnd_prefix (trimStart s)) as [w Hw].
    destruct (trimEnd (trimStart s)) as [|c u]; [reflexivity|].
    rewrite Hw in Hs. exact Hs. }
  rewrite (@trimStart_fixed _ Hclean). unfold trimEnd. rewrite rev_involutive.
  now rewrite (@trimStart_fixed _ (trimStart_startsClean _)).
Qed.

(** Normalised markup without [&nbsp;] is normalised for good. *)
Lemma normalizeMarkup_fixed (markup : jsstring) :
  occurs nbsp (normalizeMarkup markup) = false ->
  normalizeMarkup (normalizeMarkup markup) = normalizeMarkup markup.
Proof.
  intro Hnbsp. unfold normalizeMarkup at 1. rewrite (@replaceLiteral_absent nbsp [space] _ Hnbsp).
  unfold normalizeMarkup in *.
  set (x := collapseRuns (replaceLiteral nbsp [space] markup)) in *.
  set (y := stripBeforePunct x) in *.
  assert (Hx : noRuns_from false x = true) by apply collapseRuns_noRuns.
  assert (Hy : noRuns_from false y = true) by now apply strip_noRuns.
  assert (Hfix : stripBeforePunct y = y) by apply strip_idempotent.
  destruct (trimStart_suffix y) as [w1 Hw1].
  destruct (trimEnd_prefix (trimStart y)) as [w2 Hw2].
  fold (trim y) in Hw2.
  assert (Ht : noRuns_from false (trim y) = true).
  { apply noRuns_prefix with (w := w2). rewrite <- Hw2.
    apply noRuns_suffix with (w := w1) (b := false). now rewrite <- Hw1. }
  assert (Hs : stripBeforePunct (trim y) = trim y).
  { apply strip_fixed_prefix with (w := w2). rewrite <- Hw2.
    apply strip_fixed_suffix with (w := w1). now rewrite <- Hw1. }
  rewrite (@collapseRuns_fixed _ Ht), Hs. apply trim_idempotent.
Qed.

(** ** A second pass (C6) *)

Section SecondPass.

Variable render : list node -> jsstring.
Variable parse : jsstring -> list node.

Let pass := passNode render parse.

Lemma pass_settled (n : node) :
  Settled render parse n -> flat_map pass (pass n) = pass n.
Proof.
  induction n as [data|data|name attribs children IH] using node_induction;
    try reflexivity.
  unfold pass. cbn [Settled passNode]. destruct (isP name) eqn:E.
  - unfold settledMarkup. cbv zeta.
    pose proof (@normalizeMarkup_fixed (render children)) as Hfixed.
    remember (normalizeMarkup (render children)) as normalized eqn:Hn.
    intro H. destruct (Nat.eqb (List.length normalized) 0) eqn:El; [reflexivity|].
    destruct H as [H | (Hnbsp & Hround & Hswept)];
      [rewrite H in El; discriminate|].
    destruct (matchesEmptyP (Element name attribs (parse normalized))) eqn:Em;
      [reflexivity|].
    change (sweepNode (Element name attribs (parse normalized)))
      with (Element name attribs (sweep (parse normalized))).
    rewrite Hswept. cbn [flat_map passNode]. rewrite E, Hround.
    rewrite (Hfixed Hnbsp), El, Em.
    change (sweepNode (Element name attribs (parse normalized)))
      with (Element name attribs (sweep (parse normalized))).
    now rewrite Hswept.
  - intro H. cbn [flat_map passNode]. rewrite E, app_nil_r. do 2 f_equal.
    induction IH as [|x rest Hx _ IHrest]; [reflexivity|].
    destruct H as [H1 H2]. cbn [flat_map]. rewrite flat_map_app.
    rewrite (IHrest H2). unfold pass in Hx. now rewrite (Hx H1).
Qed.

End SecondPass.

(** C6, as stated, fails.  The third step of the normalisation takes the
    space out of [&nbsp ;], and the [&nbsp;] that it leaves is turned into a
    space by the first step of the next pass: the paragraph
    [<p>x<!--&nbsp ;--></p>] holds the comment [&nbsp;] after one pass and a
    blank comment after two. *)
Lemma second_pass_rewrites_comment :
  let doc := [para [Text (lit "x"); Comment (lit "&nbsp ;")]] in
  let once := normalizeSpacing Reference.render Reference.parse doc in
  let twice := normalizeSpacing Reference.render Reference.parse once in
  Reference.parse (lit "<p>x<!--&nbsp ;--></p>") = doc
  /\ once = [para [Text (lit "x"); Comment (lit "&nbsp;")]]
  /\ twice = [para [Text (lit "x"); Comment (lit " ")]]
  /\ twice <> once.
Proof. vm_compute. repeat split; discriminate. Qed.

(** C6, amended: spacing normalisation is idempotent on every tree whose
    paragraphs settle in one pass, that is, whose normalised markup holds no
    [&nbsp;], is given back by parsing and serialising, and parses without
    empty paragraphs. *)
Theorem normalizeSpacing_idempotent (render : list node -> jsstring)
    (parse : jsstring -> list node) (doc : Document) :
  parse [] = [] ->
  Forall (Settled render parse) doc ->
  normalizeSpacing render parse (normalizeSpacing render parse doc)
  = normalizeSpacing render parse doc.
Proof.
  intros Hparse Hdoc. rewrite !normalizeSpacing_pass by exact Hparse.
  induction Hdoc as [|n rest Hn _ IH]; [reflexivity|].
  cbn [flat_map]. rewrite flat_map_app.
  now rewrite (@pass_settled render parse n Hn), IH.
Qed.

Lemma normalizeSpacing_idempotent_witness :
  let doc := [td [para [Text (lit "Total :  42")]];
              para [Text (lit "  ")];
              para [Text (lit "He said :"); Element (lit "em") [] [Text (lit "no")]]] in
  Reference.parse [] = []
  /\ Forall (Settled Reference.render Reference.parse) doc
  /\ normalizeSpacing Reference.render Reference.parse
       (normalizeSpacing Reference.render Reference.parse doc)
     = normalizeSpacing Reference.render Reference.parse doc.
Proof.
  assert (H : Forall (Settled Reference.render Reference.parse)
                [td [para [Text (lit "Total :  42")]];
                 para [Text (lit "  ")];
                 para [Text (lit "He said :");
                       Element (lit "em") [] [Text (lit "no")]]]).
  { apply Forall_cons; [|apply Forall_cons; [|apply Forall_cons; [|apply Forall_nil]]].
    - vm_compute. split; [right; repeat split; reflexivity | exact I].
    - vm_compute. left. reflexivity.
    - vm_compute. right. repeat split; reflexivity. }
  split; [reflexivity|]. split; [exact H|].
  exact (@normalizeSpacing_idempotent Reference.render Reference.parse _ eq_refl H).
Defined.

(** * Further properties *)

(** ** Smart quotes, once more *)

Lemma curl_not_straight (previous : option code_unit) (c : code_unit) :
  isStraight (curl previous c) = false.
Proof.
  unfold curl, isStraight.
  destruct (N.eqb c quote) eqn:Eq; [now destruct (opensAfter previous)|].
  destruct (N.eqb c apostrophe) eqn:Ea; [now destruct (opensAfter previous)|].
  now rewrite Eq, Ea.
Qed.

Lemma curl_fixed (previous : option code_unit) (c : code_unit) :
  isStraight c = false -> curl previous c = c.
Proof.
  unfold curl, isStraight. intro H. apply orb_false_iff in H as [Hq Ha].
  now rewrite Hq, Ha.
Qed.

Lemma directionalQuotes_fixed (s : jsstring) :
  forall previous,
    existsb isStraight s = false -> directionalQuotes_from previous s = s.
Proof.
  induction s as [|c r IH]; intros previous H; [reflexivity|].
  cbn [existsb] in H. apply orb_false_iff in H as [Hc Hr].
  cbn [directionalQuotes_from]. now rewrite (@curl_fixed previous c Hc), IH.
Qed.

Lemma directionalQuotes_curly (s : jsstring) :
  forall previous, existsb isStraight (directionalQuotes_from previous s) = false.
Proof.
  induction s as [|c r IH]; intros previous; [reflexivity|].
  cbn [directionalQuotes_from existsb]. now rewrite curl_not_straight, IH.
Qed.

Lemma directionalQuotes_length (s : jsstring) :
  forall previous,
    List.length (directionalQuotes_from previous s) = List.length s.
Proof.
  induction s as [|c r IH]; intros previous; [reflexivity|].
  cbn [directionalQuotes_from List.length]. now rewrite IH.
Qed.

Lemma convertSmartQuotes_idempotent (value : jsstring) :
  convertSmartQuotes (convertSmartQuotes value) = convertSmartQuotes value.
Proof.
  rewrite (convertSmartQuotes_rule (convertSmartQuotes value)).
  apply directionalQuotes_fixed. rewrite convertSmartQuotes_rule.
  apply directionalQuotes_curly.
Qed.

(** X1: [convertSmartQuotes] leaves no straight quote in its result and keeps
    the length of the string; applied to its own result it changes nothing. *)
Theorem convertSmartQuotes_curls_all (value : jsstring) :
  existsb isStraight (convertSmartQuotes value) = false
  /\ List.length (convertSmartQuotes value) = List.length value
  /\ convertSmartQuotes (convertSmartQuotes value) = convertSmartQuotes value.
Proof.
  rewrite convertSmartQuotes_idempotent, convertSmartQuotes_rule.
  repeat split.
  - apply directionalQuotes_curly.
  - apply directionalQuotes_length.
Qed.

(** X2: a string without straight quotes is left as it is. *)
Theorem convertSmartQuotes_without_quotes (value : jsstring) :
  existsb isStraight value = false -> convertSmartQuotes value = value.
Proof.
  intro H. rewrite convertSmartQuotes_rule. now apply directionalQuotes_fixed.
Qed.

Lemma convertSmartQuotes_without_quotes_witness :
  existsb isStraight (lit "Report (draft), 2024") = false
  /\ convertSmartQuotes (lit "Report (draft), 2024") = lit "Report (draft), 2024".
Proof.
  split; [reflexivity|].
  exact (@convertSmartQuotes_without_quotes (lit "Report (draft), 2024") eq_refl).
Defined.

Lemma quoteBelow_skeleton (n : node) : skeleton (quoteBelow n) = skeleton n.
Proof.
  induction n as [data|data|name attribs children IH] using node_induction;
    try reflexivity.
  cbn [quoteBelow skeleton]. f_equal. rewrite map_map.
  induction IH as [|x rest Hx _ IHrest]; [reflexivity|].
  cbn [map]. rewrite IHrest. f_equal.
  destruct x as [d|d|nm a k]; [reflexivity|exact Hx|exact Hx].
Qed.

Lemma quoteBelow_idempotent (n : node) : quoteBelow (quoteBelow n) = quoteBelow n.
Proof.
  induction n as [data|data|name attribs children IH] using node_induction;
    try reflexivity.
  cbn [quoteBelow]. f_equal. rewrite map_map.
  induction IH as [|x rest Hx _ IHrest]; [reflexivity|].
  cbn [map]. rewrite IHrest. f_equal.
  destruct x as [d|d|nm a k].
  - cbn [quoteChild]. now rewrite convertSmartQuotes_idempotent.
  - reflexivity.
  - cbn [quoteChild] in *. cbn [quoteBelow] in Hx |- *. exact Hx.
Qed.

Lemma quoteNode_skeleton (n : node) : skeleton (quoteNode n) = skeleton n.
Proof.
  induction n as [data|data|name attribs children IH] using node_induction;
    try reflexivity.
  cbn [quoteNode]. destruct (JS.eqb name (lit "body")); cbn [skeleton]; f_equal;
    rewrite map_map.
  - apply map_ext. intro x. apply quoteBelow_skeleton.
  - induction IH as [|x rest Hx _ IHrest]; [reflexivity|].
    cbn [map]. now rewrite Hx, IHrest.
Qed.

Lemma quoteNode_idempotent (n : node) : quoteNode (quoteNode n) = quoteNode n.
Proof.
  induction n as [data|data|name attribs children IH] using node_induction;
    try reflexivity.
  cbn [quoteNode]. destruct (JS.eqb name (lit "body")) eqn:E; cbn [quoteNode];
    rewrite E; f_equal; rewrite map_map.
  - apply map_ext. intro x. apply quoteBelow_idempotent.
  - induction IH as [|x rest Hx _ IHrest]; [reflexivity|].
    cbn [map]. now rewrite Hx, IHrest.
Qed.

(** X3: [applySmartQuotes] touches the data of text nodes and nothing else:
    elements, attributes, comments and the places of the text nodes stay, and
    a second application changes nothing. *)
Theorem applySmartQuotes_keeps_structure (doc : Document) :
  map skeleton (applySmartQuotes doc) = map skeleton doc
  /\ applySmartQuotes (applySmartQuotes doc) = applySmartQuotes doc.
Proof.
  unfold applySmartQuotes. rewrite !map_map. split; apply map_ext; intro n.
  - apply quoteNode_skeleton.
  - apply quoteNode_idempotent.
Qed.

(** ** Title case, once more *)

Lemma lowerUnit_upperUnit (c : code_unit) : lowerUnit (upperUnit c) = lowerUnit c.
Proof.
  unfold upperUnit. destruct (N.leb 97 c && N.leb c 122) eqn:E; [|reflexivity].
  apply andb_true_iff in E as [H1 H2].
  apply N.leb_le in H1. apply N.leb_le in H2. unfold lowerUnit.
  replace (N.leb 65 (c - 32) && N.leb (c - 32) 90) with true
    by (symmetry; apply andb_true_iff; split; apply N.leb_le; lia).
  replace (N.leb 65 c && N.leb c 90) with false
    by (symmetry; apply andb_false_iff; right; apply N.leb_gt; lia).
  lia.
Qed.

Lemma lowerUnit_idempotent (c : code_unit) : lowerUnit (lowerUnit c) = lowerUnit c.
Proof.
  unfold lowerUnit. destruct (N.leb 65 c && N.leb c 90) eqn:E; [|now rewrite E].
  apply andb_true_iff in E as [H1 H2].
  apply N.leb_le in H1. apply N.leb_le in H2.
  replace (N.leb 65 (c + 32) && N.leb (c + 32) 90) with false
    by (symmetry; apply andb_false_iff; right; apply N.leb_gt; lia).
  reflexivity.
Qed.

Lemma toLowerCase_lowered (s : jsstring) : lowered (toLowerCase s).
Proof.
  induction s as [|c r IH]; constructor; [apply lowerUnit_idempotent|exact IH].
Qed.

Lemma lowered_fixed (s : jsstring) : lowered s -> toLowerCase s = s.
Proof.
  induction 1 as [|c r Hc _ IH]; [reflexivity|].
  cbn [toLowerCase map]. rewrite Hc. f_equal. exact IH.
Qed.

Lemma toLowerCase_app (a b : jsstring) :
  toLowerCase (a ++ b) = toLowerCase a ++ toLowerCase b.
Proof. apply map_app. Qed.

Lemma join_cons (sep p : jsstring) (rest : list jsstring) :
  rest <> [] -> join sep (p :: rest) = p ++ sep ++ join sep rest.
Proof. destruct rest; [contradiction|reflexivity]. Qed.

Lemma toLowerCase_join (sep : jsstring) (parts : list jsstring) :
  toLowerCase (join sep parts) = join (toLowerCase sep) (map toLowerCase parts).
Proof.
  induction parts as [|p rest IH]; [reflexivity|].
  destruct rest as [|q rest]; [reflexivity|].
  rewrite join_cons by easy. cbn [map] in IH |- *.
  rewrite (@join_cons (toLowerCase sep) (toLowerCase p)
             (toLowerCase q :: map toLowerCase rest)) by easy.
  now rewrite !toLowerCase_app, IH.
Qed.

Lemma toLowerCase_capitalize (word : jsstring) :
  toLowerCase (capitalize word) = toLowerCase word.
Proof.
  destruct word as [|c r]; [reflexivity|].
  unfold capitalize, charAt0, slice1, toUpperCase, toLowerCase.
  cbn [firstn skipn map app]. now rewrite lowerUnit_upperUnit.
Qed.

(** Splitting keeps the units. *)
Lemma splitSpaces_from_units (Q : code_unit -> Prop) (s : jsstring) :
  forall b acc, Forall Q acc -> Forall Q s ->
                Forall (Forall Q) (splitSpaces_from b acc s).
Proof.
  induction s as [|c r IH]; intros b acc Hacc Hs; cbn [splitSpaces_from].
  - constructor; [|constructor]. now apply Forall_rev.
  - inversion Hs as [|? ? Hc Hr]; subst.
    destruct (isSpace c).
    + destruct b; [now apply IH|].
      constructor; [now apply Forall_rev|]. now apply IH.
    + apply IH; [now constructor|exact Hr].
Qed.

Lemma splitOn_from_units (Q : code_unit -> Prop) (sep : code_unit) (s : jsstring) :
  forall acc, Forall Q acc -> Forall Q s ->
              Forall (Forall Q) (splitOn_from sep acc s).
Proof.
  induction s as [|c r IH]; intros acc Hacc Hs; cbn [splitOn_from].
  - constructor; [|constructor]. now apply Forall_rev.
  - inversion Hs as [|? ? Hc Hr]; subst.
    destruct (N.eqb c sep).
    + constructor; [now apply Forall_rev|]. now apply IH.
    + apply IH; [now constructor|exact Hr].
Qed.

Lemma splitOn_from_nonempty (sep : code_unit) (s acc : jsstring) :
  splitOn_from sep acc s <> [].
Proof.
  revert acc. induction s as [|c r IH]; intros acc; cbn [splitOn_from];
    [discriminate|].
  destruct (N.eqb c sep); [discriminate|apply IH].
Qed.

(** [word.split(c).join(c)] gives the word back. *)
Lemma splitOn_from_join (sep : code_unit) (s : jsstring) :
  forall acc, join [sep] (splitOn_from sep acc s) = rev acc ++ s.
Proof.
  induction s as [|c r IH]; intros acc; cbn [splitOn_from].
  - cbn [join]. now rewrite app_nil_r.
  - destruct (N.eqb c sep) eqn:E.
    + apply N.eqb_eq in E. subst c.
      rewrite join_cons by apply splitOn_from_nonempty.
      now rewrite IH.
    + rewrite IH. cbn [rev]. now rewrite <- app_assoc.
Qed.

Lemma titleWord_lowered (words : list jsstring) (word : jsstring) (index : Z) :
  lowered word -> toLowerCase (titleWord words word index) = word.
Proof.
  intro Hw. unfold titleWord.
  destruct word as [|c r] eqn:Ew; [reflexivity|]. rewrite <- Ew in *.
  replace (Nat.eqb (List.length word) 0) with false by now rewrite Ew.
  destruct (includes hyphen word).
  - rewrite toLowerCase_join, map_map.
    rewrite (map_ext_Forall (fun part => toLowerCase (capitalize part)) (fun part => part)).
    + rewrite map_id. change (toLowerCase [hyphen]) with [hyphen].
      unfold splitOn. now rewrite splitOn_from_join.
    + pose proof (@splitOn_from_units _ hyphen word [] (Forall_nil _) Hw) as Hparts.
      fold (splitOn hyphen word) in Hparts.
      induction Hparts as [|p ps Hp _ IH]; constructor; [|exact IH].
      rewrite toLowerCase_capitalize. now apply lowered_fixed.
  - destruct (_ && _ && _).
    + now apply lowered_fixed.
    + rewrite toLowerCase_capitalize. now apply lowered_fixed.
Qed.

Lemma mapi_from_lowered (words all : list jsstring) :
  Forall lowered words ->
  forall index,
    map toLowerCase (mapi_from (titleWord all) index words) = words.
Proof.
  induction 1 as [|w ws Hw _ IH]; intros index; [reflexivity|].
  cbn [mapi_from map]. now rewrite titleWord_lowered, IH.
Qed.

Lemma toLowerCase_toTitleCase (input : jsstring) :
  toLowerCase (toTitleCase input) = join [space] (splitSpaces (toLowerCase input)).
Proof.
  unfold toTitleCase. cbv zeta. rewrite toLowerCase_join.
  change (toLowerCase [space]) with [space]. f_equal.
  unfold mapi. apply mapi_from_lowered.
  unfold splitSpaces. apply splitSpaces_from_units; [constructor|].
  apply toLowerCase_lowered.
Qed.

(** The pieces of a split. *)
Lemma noSpace_rev (s : jsstring) : noSpace s = true -> noSpace (rev s) = true.
Proof.
  unfold noSpace. rewrite !forallb_forall. intros H x Hx.
  apply H. now apply in_rev.
Qed.

Lemma splitSpaces_from_tail (s : jsstring) :
  forall b acc,
    noSpace acc = true -> (acc <> [] \/ b = true) -> (b = true -> acc = []) ->
    tailPieces (splitSpaces_from b acc s) /\ splitSpaces_from b acc s <> [].
Proof.
  induction s as [|c r IH]; intros b acc Hacc Hor Hb; cbn [splitSpaces_from].
  - split; [|discriminate]. cbn [tailPieces]. split; [now apply noSpace_rev|exact I].
  - destruct (isSpace c) eqn:Ec.
    + destruct b.
      * apply IH; auto.
      * destruct Hor as [Hne|Hne]; [|discriminate].
        split; [|discriminate].
        destruct (IH true [] eq_refl (or_intror eq_refl) (fun _ => eq_refl))
          as [Ht Hn].
        cbn [tailPieces]. split; [now apply noSpace_rev|].
        destruct (splitSpaces_from true [] r) as [|q rest]; [contradiction|].
        split; [|exact Ht].
        intro E. apply Hne. apply (f_equal (@rev code_unit)) in E.
        now rewrite rev_involutive in E.
    + apply IH.
      * unfold noSpace in *. cbn [forallb]. now rewrite Ec, Hacc.
      * left. discriminate.
      * discriminate.
Qed.

Lemma splitSpaces_pieces (s : jsstring) : pieces (splitSpaces s).
Proof.
  unfold splitSpaces. destruct s as [|c r]; [now cbn|].
  cbn [splitSpaces_from]. destruct (isSpace c) eqn:Ec.
  - cbn [pieces rev]. split; [reflexivity|].
    apply splitSpaces_from_tail; auto.
  - destruct (@splitSpaces_from_tail r false [c]) as [Ht Hn].
    + unfold noSpace. cbn [forallb]. now rewrite Ec.
    + left. discriminate.
    + discriminate.
    + destruct (splitSpaces_from false [c] r) as [|q rest]; [contradiction|].
      cbn [pieces]. cbn [tailPieces] in Ht. destruct Ht as [Hq Hrest].
      split; [exact Hq|]. destruct rest; [exact I|]. apply Hrest.
Qed.

Lemma splitSpaces_from_word (q : jsstring) :
  noSpace q = true -> q <> [] ->
  forall b acc t,
    splitSpaces_from b acc (q ++ t) = splitSpaces_from false (rev q ++ acc) t.
Proof.
  induction q as [|c q IH]; intros Hq Hne b acc t; [contradiction|].
  unfold noSpace in Hq. cbn [forallb] in Hq.
  apply andb_true_iff in Hq as [Hc Hq]. apply negb_true_iff in Hc.
  cbn [app splitSpaces_from]. rewrite Hc.
  destruct q as [|d q'].
  - reflexivity.
  - rewrite IH by easy.
    cbn [rev]. now rewrite <- !app_assoc.
Qed.

Lemma splitSpaces_from_join (rest : list jsstring) :
  tailPieces rest -> rest <> [] ->
  splitSpaces_from true [] (join [space] rest) = rest.
Proof.
  induction rest as [|q rest IH]; intros Ht Hne; [contradiction|].
  cbn [tailPieces] in Ht. destruct Ht as [Hq Hrest].
  destruct rest as [|q2 rest].
  - cbn [join]. destruct q as [|c q']; [reflexivity|].
    rewrite <- (app_nil_r (c :: q')) at 1.
    rewrite splitSpaces_from_word by easy.
    cbn [splitSpaces_from]. now rewrite app_nil_r, rev_involutive.
  - destruct Hrest as [Hqne Hrest].
    rewrite join_cons by easy.
    rewrite splitSpaces_from_word by assumption.
    cbn [app splitSpaces_from]. change (isSpace space) with true. cbn iota.
    rewrite app_nil_r, rev_involutive. f_equal.
    apply IH; [exact Hrest|easy].
Qed.

Lemma splitSpaces_join (ps : list jsstring) :
  pieces ps -> splitSpaces (join [space] ps) = ps.
Proof.
  destruct ps as [|p rest]; [contradiction|]. intros [Hp Hrest].
  unfold splitSpaces. destruct rest as [|q rest].
  - cbn [join]. destruct p as [|c p']; [reflexivity|].
    rewrite <- (app_nil_r (c :: p')) at 1.
    rewrite splitSpaces_from_word by easy.
    cbn [splitSpaces_from]. now rewrite app_nil_r, rev_involutive.
  - rewrite join_cons by easy.
    destruct p as [|c p'].
    + cbn [app splitSpaces_from]. change (isSpace space) with true. cbn iota.
      cbn [rev]. f_equal. apply splitSpaces_from_join; [exact Hrest|easy].
    + rewrite splitSpaces_from_word by easy.
      cbn [app splitSpaces_from]. change (isSpace space) with true. cbn iota.
      rewrite app_nil_r, rev_involutive. f_equal.
      apply splitSpaces_from_join; [exact Hrest|easy].
Qed.

Lemma toTitleCase_idempotent (input : jsstring) :
  toTitleCase (toTitleCase input) = toTitleCase input.
Proof.
  unfold toTitleCase at 1. cbv zeta. rewrite toLowerCase_toTitleCase.
  rewrite splitSpaces_join by apply splitSpaces_pieces. reflexivity.
Qed.

(** X4: on text in the ASCII range, title-casing changes the case of letters
    and the white space between words, and nothing else: in lower case, the
    result is the input in lower case with each run of white space turned
    into one space. *)
Theorem toTitleCase_only_case_and_spacing (input : jsstring) :
  plainUnits input = true ->
  toLowerCase (toTitleCase input)
  = join [space] (splitSpaces (toLowerCase input)).
Proof. intros _. apply toLowerCase_toTitleCase. Qed.

Lemma toTitleCase_only_case_and_spacing_witness :
  plainUnits (lit "the  STATE-of-the-art   report ") = true
  /\ toLowerCase (toTitleCase (lit "the  STATE-of-the-art   report "))
     = lit "the state-of-the-art report ".
Proof.
  split; [reflexivity|].
  exact (@toTitleCase_only_case_and_spacing (lit "the  STATE-of-the-art   report ")
           eq_refl).
Defined.

(** X5: on text in the ASCII range, title-casing a title-cased text changes
    nothing. *)
Theorem toTitleCase_settles (input : jsstring) :
  plainUnits input = true ->
  toTitleCase (toTitleCase input) = toTitleCase input.
Proof. intros _. apply toTitleCase_idempotent. Qed.

Lemma toTitleCase_settles_witness :
  plainUnits (lit "a tale of two cities") = true
  /\ toTitleCase (toTitleCase (lit "a tale of two cities"))
     = toTitleCase (lit "a tale of two cities").
Proof.
  split; [reflexivity|].
  exact (@toTitleCase_settles (lit "a tale of two cities") eq_refl).
Defined.

Lemma isSpace_not_upper (c : code_unit) :
  isSpace c = true -> N.leb 65 c && N.leb c 90 = false.
Proof.
  intro H. destruct (N.leb 65 c && N.leb c 90) eqn:E; [|reflexivity].
  apply andb_true_iff in E as [H1 H2].
  apply N.leb_le in H1. apply N.leb_le in H2.
  unfold isSpace in H.
  repeat (apply orb_true_iff in H as [H|H]);
    repeat match goal with
           | H : _ && _ = true |- _ => apply andb_true_iff in H as [? ?]
           | H : N.leb _ _ = true |- _ => apply N.leb_le in H
           | H : N.eqb _ _ = true |- _ => apply N.eqb_eq in H
           end; lia.
Qed.

Lemma allSpace_lowered (s : jsstring) : allSpace s = true -> toLowerCase s = s.
Proof.
  induction s as [|c r IH]; [reflexivity|].
  unfold allSpace. cbn [forallb]. intro H. apply andb_true_iff in H as [Hc Hr].
  cbn [toLowerCase map]. unfold lowerUnit at 1. rewrite (isSpace_not_upper _ Hc).
  f_equal. now apply IH.
Qed.

Lemma splitSpaces_from_allSpace (s : jsstring) :
  allSpace s = true -> splitSpaces_from true [] s = [[]].
Proof.
  induction s as [|c r IH]; [reflexivity|].
  unfold allSpace. cbn [forallb]. intro H. apply andb_true_iff in H as [Hc Hr].
  cbn [splitSpaces_from]. rewrite Hc. now apply IH.
Qed.

(** X6: a heading text of nothing but white space becomes one space, and the
    empty text stays empty. *)
Theorem toTitleCase_blank (input : jsstring) :
  allSpace input = true ->
  toTitleCase input = match input with [] => [] | _ :: _ => [space] end.
Proof.
  intro H. unfold toTitleCase. cbv zeta. rewrite (allSpace_lowered _ H).
  destruct input as [|c r]; [reflexivity|].
  unfold allSpace in H. cbn [forallb] in H. apply andb_true_iff in H as [Hc Hr].
  unfold splitSpaces. cbn [splitSpaces_from]. rewrite Hc.
  now rewrite (splitSpaces_from_allSpace _ Hr).
Qed.

Lemma toTitleCase_blank_witness :
  allSpace [space; 9; 160] = true /\ toTitleCase [space; 9; 160] = [space].
Proof.
  split; [reflexivity|].
  exact (@toTitleCase_blank [space; 9; 160] eq_refl).
Defined.

(** ** Headings *)

Lemma titleNode_idempotent (n : node) : titleNode (titleNode n) = titleNode n.
Proof.
  induction n as [data|data|name attribs children IH] using node_induction;
    try reflexivity.
  cbn [titleNode]. destruct (isHeading name) eqn:E; cbn [titleNode]; rewrite E.
  - unfold text. cbn [flat_map textContent]. rewrite app_nil_r.
    now rewrite toTitleCase_idempotent.
  - f_equal. rewrite map_map.
    induction IH as [|x rest Hx _ IHrest]; [reflexivity|].
    cbn [map]. now rewrite Hx, IHrest.
Qed.

Lemma titleNode_outside (n : node) :
  outsideHeadings (titleNode n) = outsideHeadings n.
Proof.
  induction n as [data|data|name attribs children IH] using node_induction;
    try reflexivity.
  cbn [titleNode outsideHeadings].
  destruct (isHeading name) eqn:E; cbn [outsideHeadings]; rewrite E;
    [reflexivity|].
  do 2 f_equal.
  induction IH as [|x rest Hx _ IHrest]; [reflexivity|].
  cbn [map flat_map]. now rewrite Hx, IHrest.
Qed.

(** X7: [applyTitleCase] changes headings of levels 1 to 3 and nothing else:
    the tree with those headings cut out is the same before and after; and on
    a tree whose text is in the ASCII range a second application changes
    nothing. *)
Theorem applyTitleCase_only_headings (doc : Document) :
  plainUnits (text doc) = true ->
  flat_map outsideHeadings (applyTitleCase doc) = flat_map outsideHeadings doc
  /\ applyTitleCase (applyTitleCase doc) = applyTitleCase doc.
Proof.
  intros _. unfold applyTitleCase. split.
  - induction doc as [|n rest IH]; [reflexivity|].
    cbn [map flat_map]. now rewrite titleNode_outside, IH.
  - rewrite map_map. apply map_ext. intro n. apply titleNode_idempotent.
Qed.

Lemma applyTitleCase_only_headings_witness :
  let doc := [h1 [Text (lit "the "); Element (lit "em") [] [Text (lit "art")];
                  Text (lit " of  war")];
              para [Text (lit "left as it is")]] in
  plainUnits (text doc) = true
  /\ applyTitleCase (applyTitleCase doc) = applyTitleCase doc.
Proof.
  split; [reflexivity|].
  exact (proj2 (@applyTitleCase_only_headings
                  [h1 [Text (lit "the "); Element (lit "em") [] [Text (lit "art")];
                       Text (lit " of  war")];
                   para [Text (lit "left as it is")]] eq_refl)).
Defined.

(** ** Normalised markup, once more *)

Lemma trim_prefix_suffix (s : jsstring) : exists w1 w2, s = w1 ++ trim s ++ w2.
Proof.
  destruct (trimStart_suffix s) as [w1 H1].
  destruct (trimEnd_prefix (trimStart s)) as [w2 H2].
  exists w1, w2. unfold trim. now rewrite <- H2.
Qed.

Lemma trim_startsClean (s : jsstring) : startsClean (trim s) = true.
Proof.
  unfold trim. pose proof (trimStart_startsClean s) as Hs.
  destruct (trimEnd_prefix (trimStart s)) as [w Hw].
  destruct (trimEnd (trimStart s)) as [|c u]; [reflexivity|].
  rewrite Hw in Hs. exact Hs.
Qed.

Lemma trim_endsClean (s : jsstring) : startsClean (rev (trim s)) = true.
Proof.
  unfold trim, trimEnd. rewrite rev_involutive. apply trimStart_startsClean.
Qed.

Lemma strip_fixed_no_mark (s : jsstring) :
  stripBeforePunct s = s -> spaceThenMark s = false.
Proof.
  induction s as [|c r IH]; [reflexivity|]. intro H.
  apply strip_fixed_cons in H as [Hc Hr]. cbn [spaceThenMark].
  destruct r as [|d r']; [reflexivity|].
  rewrite (IH Hr), orb_false_r.
  destruct (isSpace c) eqn:Ec; [|reflexivity]. cbn [andb] in Hc |- *.
  cbn [marksNext] in Hc. destruct (isSpace d) eqn:Ed; [|exact Hc].
  destruct (isPunct d) eqn:Ep; [|reflexivity].
  unfold isPunct in Ep. unfold isSpace in Ed.
  repeat (apply orb_true_iff in Ep as [Ep|Ep]);
    apply N.eqb_eq in Ep; subst d; discriminate.
Qed.

Lemma normalizeMarkup_shape (markup : jsstring) :
  noRuns_from false (normalizeMarkup markup) = true
  /\ stripBeforePunct (normalizeMarkup markup) = normalizeMarkup markup.
Proof.
  unfold normalizeMarkup.
  set (x := collapseRuns (replaceLiteral nbsp [space] markup)).
  set (y := stripBeforePunct x).
  assert (Hx : noRuns_from false x = true) by apply collapseRuns_noRuns.
  assert (Hy : noRuns_from false y = true) by now apply strip_noRuns.
  assert (Hfix : stripBeforePunct y = y) by apply strip_idempotent.
  destruct (trim_prefix_suffix y) as (w1 & w2 & Hw). split.
  - apply noRuns_prefix with (w := w2).
    apply noRuns_suffix with (w := w1) (b := false).
    now rewrite <- Hw.
  - apply strip_fixed_prefix with (w := w2).
    apply strip_fixed_suffix with (w := w1). now rewrite <- Hw.
Qed.

(** X8: what [normalizeSpacing] writes back into a paragraph is tidy: it
    neither starts nor ends with white space, holds no two white-space units
    in a row and no white space right before one of the marks [.,;:!?]. *)
Theorem normalizeMarkup_tidy (markup : jsstring) :
  let normalized := normalizeMarkup markup in
  startsClean normalized = true
  /\ startsClean (rev normalized) = true
  /\ noRuns_from false normalized = true
  /\ spaceThenMark normalized = false.
Proof.
  cbv zeta. destruct (normalizeMarkup_shape markup) as [Hruns Hfix].
  repeat split.
  - apply trim_startsClean.
  - apply trim_endsClean.
  - exact Hruns.
  - now apply strip_fixed_no_mark.
Qed.

Lemma no_mark_strip_fixed (s : jsstring) :
  forall b, noRuns_from b s = true -> spaceThenMark s = false ->
            stripBeforePunct s = s.
Proof.
  induction s as [|c r IH]; intros b Hruns Hmark; [reflexivity|].
  cbn [noRuns_from] in Hruns. apply andb_true_iff in Hruns as [_ Hruns].
  cbn [stripBeforePunct].
  assert (Hr : spaceThenMark r = false).
  { cbn [spaceThenMark] in Hmark. destruct r as [|d r']; [reflexivity|].
    now apply orb_false_iff in Hmark as [_ Hmark]. }
  rewrite (IH _ Hruns Hr).
  destruct (isSpace c) eqn:Ec; [|reflexivity]. cbn [andb].
  destruct r as [|d r']; [reflexivity|].
  cbn [marksNext]. cbn [noRuns_from andb] in Hruns.
  apply andb_true_iff in Hruns as [Hd _]. apply negb_true_iff in Hd. rewrite Hd.
  cbn [spaceThenMark] in Hmark. apply orb_false_iff in Hmark as [Hmark _].
  rewrite Ec in Hmark. cbn [andb] in Hmark. now rewrite Hmark.
Qed.

(** X9: tidy markup without [&nbsp;] is left as it is. *)
Theorem normalizeMarkup_keeps_tidy (markup : jsstring) :
  occurs nbsp markup = false ->
  startsClean markup = true ->
  startsClean (rev markup) = true ->
  noRuns_from false markup = true ->
  spaceThenMark markup = false ->
  normalizeMarkup markup = markup.
Proof.
  intros Hnbsp Hstart Hend Hruns Hmark. unfold normalizeMarkup.
  rewrite (@replaceLiteral_absent nbsp [space] _ Hnbsp).
  rewrite (@collapseRuns_fixed _ Hruns).
  rewrite (@no_mark_strip_fixed _ false Hruns Hmark).
  unfold trim. rewrite (@trimStart_fixed _ Hstart).
  unfold trimEnd. rewrite (@trimStart_fixed _ Hend). apply rev_involutive.
Qed.

Lemma normalizeMarkup_keeps_tidy_witness :
  let markup := lit "See <em>the report</em>, page 3: done." in
  occurs nbsp markup = false
  /\ normalizeMarkup markup = markup.
Proof.
  split; [reflexivity|].
  exact (@normalizeMarkup_keeps_tidy (lit "See <em>the report</em>, page 3: done.")
           eq_refl eq_refl eq_refl eq_refl eq_refl).
Defined.

Lemma allSpace_no_nbsp (s : jsstring) :
  allSpace s = true -> replaceLiteral nbsp [space] s = s.
Proof.
  intro H. apply replaceLiteral_absent.
  induction s as [|c r IH]; [reflexivity|].
  unfold allSpace in H. cbn [forallb] in H. apply andb_true_iff in H as [Hc Hr].
  cbn [occurs]. rewrite (IH Hr), orb_false_r.
  change nbsp with (38 :: lit "nbsp;"). cbn [startsWith].
  destruct (N.eqb 38 c) eqn:E; [|reflexivity].
  apply N.eqb_eq in E. subst c. discriminate.
Qed.

Lemma collapseRuns_from_allSpace (s : jsstring) :
  forall b, allSpace s = true -> allSpace (collapseRuns_from b s) = true.
Proof.
  induction s as [|c r IH]; intros b H; [reflexivity|].
  pose proof H as H'. unfold allSpace in H'. cbn [forallb] in H'.
  apply andb_true_iff in H' as [Hc Hr].
  cbn [collapseRuns_from]. rewrite Hc.
  destruct b; [now apply IH|].
  destruct r as [|d r']; [exact H|].
  unfold allSpace in Hr. cbn [forallb] in Hr.
  apply andb_true_iff in Hr as [Hd Hr']. rewrite Hd.
  unfold allSpace. cbn [forallb]. change (isSpace space) with true. cbn [andb].
  apply (IH true). unfold allSpace. cbn [forallb]. now rewrite Hd, Hr'.
Qed.

Lemma strip_allSpace (s : jsstring) :
  allSpace s = true -> allSpace (stripBeforePunct s) = true.
Proof.
  induction s as [|c r IH]; [reflexivity|].
  unfold allSpace. cbn [forallb]. intro H. apply andb_true_iff in H as [Hc Hr].
  cbn [stripBeforePunct]. destruct (isSpace c && marksNext r); [now apply IH|].
  cbn [forallb]. rewrite Hc. now apply IH.
Qed.

Lemma trimStart_allSpace (s : jsstring) : allSpace s = true -> trimStart s = [].
Proof.
  induction s as [|c r IH]; [reflexivity|].
  unfold allSpace. cbn [forallb]. intro H. apply andb_true_iff in H as [Hc Hr].
  cbn [trimStart]. rewrite Hc. now apply IH.
Qed.

(** X10: markup of nothing but white space normalises to the empty string,
    which is what makes the loop drop or empty the paragraph. *)
Theorem normalizeMarkup_blank (markup : jsstring) :
  allSpace markup = true -> normalizeMarkup markup = [].
Proof.
  intro H. unfold normalizeMarkup, trim.
  rewrite (allSpace_no_nbsp _ H).
  rewrite trimStart_allSpace; [reflexivity|].
  apply strip_allSpace. now apply collapseRuns_from_allSpace.
Qed.

Lemma normalizeMarkup_blank_witness :
  allSpace [space; 10; 9; 160] = true /\ normalizeMarkup [space; 10; 9; 160] = [].
Proof.
  split; [reflexivity|].
  exact (@normalizeMarkup_blank [space; 10; 9; 160] eq_refl).
Defined.

Lemma replaceNbsp_length (s : jsstring) :
  forall skip,
    (List.length (replaceLiteral_from nbsp [space] skip s) <= List.length s)%nat.
Proof.
  induction s as [|c r IH]; intros skip; [reflexivity|].
  cbn [replaceLiteral_from]. destruct skip as [|k].
  - destruct (startsWith nbsp (c :: r)).
    + cbn [app List.length]. specialize (IH (List.length nbsp - 1)%nat). lia.
    + cbn [List.length]. specialize (IH O). lia.
  - cbn [List.length]. specialize (IH k). lia.
Qed.

Lemma collapseRuns_length (s : jsstring) :
  forall b, (List.length (collapseRuns_from b s) <= List.length s)%nat.
Proof.
  induction s as [|c r IH]; intros b; [reflexivity|].
  cbn [collapseRuns_from]. destruct (isSpace c).
  - destruct b.
    + cbn [List.length]. specialize (IH true). lia.
    + destruct r as [|d r']; [reflexivity|].
      destruct (isSpace d); cbn [List.length].
      * specialize (IH true). cbn [List.length] in IH. lia.
      * specialize (IH false). cbn [List.length] in IH. lia.
  - cbn [List.length]. specialize (IH false). lia.
Qed.

Lemma trim_length (s : jsstring) : (List.length (trim s) <= List.length s)%nat.
Proof.
  destruct (trim_prefix_suffix s) as (w1 & w2 & H).
  rewrite H at 2. rewrite !length_app. lia.
Qed.

(** X11: normalising never makes markup longer. *)
Theorem normalizeMarkup_length (markup : jsstring) :
  (List.length (normalizeMarkup markup) <= List.length markup)%nat.
Proof.
  unfold normalizeMarkup.
  pose proof (trim_length
                (stripBeforePunct (collapseRuns (replaceLiteral nbsp [space] markup)))).
  pose proof (strip_length (collapseRuns (replaceLiteral nbsp [space] markup))).
  pose proof (collapseRuns_length (replaceLiteral nbsp [space] markup) false).
  pose proof (replaceNbsp_length markup O).
  unfold collapseRuns, replaceLiteral in *. lia.
Qed.

(** ** Paragraphs, sibling by sibling *)

(** X12: although the loop looks at the sibling before a paragraph, what a
    pass makes of a node does not depend on the nodes around it: the pass of
    a list is the passes of its parts put together, and the pass of an
    element that is not a paragraph is the element around the pass of its
    children. *)
Theorem normalizeSpacing_by_parts (render : list node -> jsstring)
    (parse : jsstring -> list node) (l1 l2 : list node) (name : jsstring)
    (attribs : list (jsstring * jsstring)) (children : list node) :
  parse [] = [] ->
  isP name = false ->
  normalizeSpacing render parse (l1 ++ l2)
  = normalizeSpacing render parse l1 ++ normalizeSpacing render parse l2
  /\ normalizeSpacing render parse [Element name attribs children]
     = [Element name attribs (normalizeSpacing render parse children)].
Proof.
  intros Hparse Hname. rewrite !normalizeSpacing_pass by exact Hparse. split.
  - apply flat_map_app.
  - cbn [flat_map passNode]. now rewrite Hname, app_nil_r.
Qed.

Lemma normalizeSpacing_by_parts_witness :
  Reference.parse [] = []
  /\ isP (lit "td") = false
  /\ normalizeSpacing Reference.render Reference.parse
       [td [para [Text (lit "a  b")]; para []]]
     = [td (normalizeSpacing Reference.render Reference.parse
              [para [Text (lit "a  b")]; para []])].
Proof.
  split; [reflexivity|]. split; [reflexivity|].
  exact (proj2 (@normalizeSpacing_by_parts Reference.render Reference.parse
                  [] [] (lit "td") [] [para [Text (lit "a  b")]; para []]
                  eq_refl eq_refl)).
Defined.

(** ** The stylesheet, once more *)

(** X13: for every entry of the preset table, the stylesheet carries the
    entry's page margin, fonts, sizes, line height, spacing, background and
    accent colour in their declarations, and aligns paragraphs as the
    [justify] option says: justified with it, left without it, never both. *)
Theorem stylesheet_carries_preset (key : jsstring) (preset : PresetConfig)
    (options : FormatterOptions) :
  PRESET_CONFIG key = Some preset ->
  let sheet := buildStyleSheet preset options in
  forallb (fun rule => occurs rule sheet) (presetRules preset options) = true
  /\ occurs (lit "text-align: justify;") sheet = justify options
  /\ occurs (lit "text-align: left;") sheet = negb (justify options).
Proof.
  intro H. apply PRESET_CONFIG_cases in H.
  destruct options as [j t tc a q].
  destruct H as [-> | [-> | [-> | ->]]]; destruct j, a;
    vm_compute; repeat split; reflexivity.
Qed.

Lemma stylesheet_carries_preset_witness :
  PRESET_CONFIG (lit "modern") = Some modern
  /\ occurs (lit "text-align: justify;") (buildStyleSheet modern (readOptions []))
     = true.
Proof.
  split; [reflexivity|].
  exact (proj1 (proj2 (@stylesheet_carries_preset (lit "modern") modern
                         (readOptions []) eq_refl))).
Defined.

(** ** The preset, once more *)

(** X14: the preset that the handler passes on always has an entry in the
    table, so that the assembler never reads a field of [undefined]. *)
Theorem chosen_preset_has_entry (formData : FormData) :
  exists config, PRESET_CONFIG (choosePreset formData) = Some config.
Proof. apply choosePreset_defined. Qed.

(** X15: for a preset name that is not inherited from [Object.prototype],
    the handler keeps the name when it is one of the three presets and takes
    [classic] otherwise. *)
Theorem preset_kept_or_classic (formData : FormData) (s : jsstring) :
  get formData (lit "preset") = Some (EntryString s) ->
  has objectPrototypeKeys s = false ->
  choosePreset formData = if has presetNames s then s else lit "classic".
Proof.
  intros Hget Hproto. unfold choosePreset, presetKey. rewrite Hget.
  destruct s as [|c r]; [reflexivity|]. cbn [List.length Nat.eqb].
  unfold PRESET_CONFIG. rewrite Hproto.
  unfold presetNames, has. cbn [map existsb].
  destruct (JS.eqb (c :: r) (lit "classic")) eqn:E1; [reflexivity|].
  destruct (JS.eqb (c :: r) (lit "modern")) eqn:E2; [reflexivity|].
  destruct (JS.eqb (c :: r) (lit "executive")) eqn:E3; reflexivity.
Qed.

Lemma preset_kept_or_classic_witness :
  get [(lit "preset", EntryString (lit "fancy"))] (lit "preset")
  = Some (EntryString (lit "fancy"))
  /\ has objectPrototypeKeys (lit "fancy") = false
  /\ choosePreset [(lit "preset", EntryString (lit "fancy"))] = lit "classic".
Proof.
  split; [reflexivity|]. split; [reflexivity|].
  exact (@preset_kept_or_classic [(lit "preset", EntryString (lit "fancy"))]
           (lit "fancy") eq_refl eq_refl).
Defined.

(** ** The handler, once more *)

(** The answer and the number of calls on one path of the handler. *)
Ltac calls n which :=
  eexists _, n; split; [reflexivity|]; split; [lia|]; split; [reflexivity|];
  which; split; [reflexivity|lia].

(** X16: the handler calls the libraries in one order, each at most once and
    none after a call that threw: the log of a request is a start of the six
    calls, with the error log after it exactly in a 500 answer.  A 200 answer
    has all six calls behind it, a 400 answer none. *)
Theorem POST_call_order (lib : Library) (formData : FormData) :
  exists response n,
    fst (POST lib formData []) = Returned response
    /\ (n <= 6)%nat
    /\ map stageIndex (snd (POST lib formData []))
       = seq 0 n ++ (if N.eqb (status response) 500 then [6%nat] else [])
    /\ (status response = 200 /\ n = 6%nat
        \/ status response = 500 /\ (1 <= n)%nat
        \/ status response = 400 /\ n = 0%nat).
Proof.
  unfold POST.
  destruct (get formData (lit "file")) as [[s|file]|];
    [ calls 0%nat ltac:(right; right) | | calls 0%nat ltac:(right; right) ].
  destruct (choosePreset_defined formData) as [config Hc].
  unfold try_catch. rewrite (@formatFile_run lib file _ _ (readOptions formData) Hc).
  destruct (arrayBuffer lib file) as [buffer|e];
    [|calls 1%nat ltac:(right; left)].
  destruct (convertToHtml lib buffer) as [rawHtml|e];
    [|calls 2%nat ltac:(right; left)].
  destruct (load lib (rootMarkup rawHtml)) as [doc|e];
    [|calls 3%nat ltac:(right; left)].
  cbv zeta.
  destruct (sanitize lib _) as [clean|e];
    [|calls 4%nat ltac:(right; left)].
  destruct (asBlob lib _) as [blob|e];
    [|calls 5%nat ltac:(right; left)].
  destruct (blobArrayBuffer lib blob) as [bytes|e];
    [|calls 6%nat ltac:(right; left)].
  calls 6%nat ltac:(left).
Qed.

Lemma get_insert_other (l1 l2 : FormData) (k name : jsstring)
    (v : FormDataEntryValue) :
  JS.eqb k name = false ->
  get (l1 ++ (k, v) :: l2) name = get (l1 ++ l2) name.
Proof.
  intro H. induction l1 as [|[k' v'] l1 IH]; cbn [app get].
  - now rewrite H.
  - now rewrite IH.
Qed.

(** X17: the handler reads seven fields of the form and no other: an entry
    under any other name, wherever it stands, changes neither the answer nor
    the calls. *)
Theorem POST_ignores_other_fields (lib : Library) (l1 l2 : FormData)
    (k : jsstring) (v : FormDataEntryValue) :
  has fieldNames k = false ->
  POST lib (l1 ++ (k, v) :: l2) = POST lib (l1 ++ l2).
Proof.
  intro H. unfold has, fieldNames in H. cbn [map existsb] in H.
  repeat (apply orb_false_iff in H as [? H]).
  assert (Hget : forall name, JS.eqb k name = false ->
                   get (l1 ++ (k, v) :: l2) name = get (l1 ++ l2) name)
    by (intros; now apply get_insert_other).
  unfold POST, choosePreset, presetKey, readOptions.
  now rewrite !Hget by assumption.
Qed.

Lemma POST_ignores_other_fields_witness :
  has fieldNames (lit "comment") = false
  /\ POST Standin.library
       ([(lit "file", EntryFile (upload (lit "<p>Hello</p>")))]
        ++ (lit "comment", EntryString (lit "urgent")) :: [])
     = POST Standin.library
         ([(lit "file", EntryFile (upload (lit "<p>Hello</p>")))] ++ []).
Proof.
  split; [reflexivity|].
  exact (@POST_ignores_other_fields Standin.library
           [(lit "file", EntryFile (upload (lit "<p>Hello</p>")))] []
           (lit "comment") (EntryString (lit "urgent")) eq_refl).
Defined.
